(** * MiniRTOS: the ring-buffer queue and the cooperative scheduler

    A shallow embedding of [minirtos.c] / [minirtos.h] and the properties
    of its queue and task list.

    Conventions of the embedding.
    - A C unsigned integer of [w] bits is a [Z] and every store into such
      an object is reduced modulo [2^w] explicitly ([uint8], [uint16],
      [uint32], [uintmax]).  [uintmax_t] / [intmax_t] are the 64-bit types
      of the Cortex-M4 GCC target of the repository.
    - A pointer is a [Z] address, [NULL] is [0].
    - Bytes copied by [memcpy] live in a flat byte-addressed memory
      [Z -> byte]; a queue descriptor and a task descriptor are records.
    - Task descriptors are caller-owned objects: the heap maps the address
      of each such object to its current contents, and dereferencing an
      address the heap does not hold (in particular [NULL]) is a crash.
    - An argument of a function is a value of the C type of its parameter;
      where a property depends on the range of that type it says so
      ([is_uint16], [is_uint32]).
    - The tick counter is a field of the scheduler's state.  It changes
      between two calls, or while a task body runs, not inside a function
      of [minirtos.c].
    - The functions are modelled as they run alone: the critical sections
      of the queue mask interrupts and change nothing else. *)

From Stdlib Require Import ZArith Lia Bool.
From Stdlib Require Import Init.Byte Strings.Byte.
From stdpp Require Import base option list gmap.

Local Open Scope Z_scope.

(** ** Machine integers *)

Definition uint8 (x : Z) : Z := x mod 2 ^ 8.
Definition uint16 (x : Z) : Z := x mod 2 ^ 16.
Definition uint32 (x : Z) : Z := x mod 2 ^ 32.
Definition uintmax (x : Z) : Z := x mod 2 ^ 64.

(** Conversion of a [uintmax_t] value to [intmax_t] (two's complement). *)
Definition intmax (x : Z) : Z :=
  let u := uintmax x in if u <? 2 ^ 63 then u else u - 2 ^ 64.

Definition is_uint16 (x : Z) : Prop := 0 <= x < 2 ^ 16.
Definition is_uint32 (x : Z) : Prop := 0 <= x < 2 ^ 32.
Definition is_uintmax (x : Z) : Prop := 0 <= x < 2 ^ 64.

Definition NULL : Z := 0.

(** ** Byte memory *)

Definition memory : Type := Z -> byte.

#[global] Instance byte_eq_dec : EqDecision byte := Byte.byte_eq_dec.

(** [memcpy m dst src n]: the [n] bytes at [src] are copied to [dst];
    every other byte keeps its value.  The source is read in the memory
    before the call, which is what C guarantees when the two areas do not
    overlap; C does not define the copy of overlapping areas, and the
    properties of the bytes a call copies take the element or the
    destination handed to the call outside the storage of the queue. *)
Definition memcpy (m : memory) (dst src n : Z) : memory :=
  fun a => if (dst <=? a) && (a <? dst + n) then m (src + (a - dst)) else m a.

(** The [n] bytes found at address [p], as a list. *)
Fixpoint read_from (m : memory) (p : Z) (n : nat) : list byte :=
  match n with
  | O => []
  | S n' => m p :: read_from m (p + 1) n'
  end.

Definition read_bytes (m : memory) (p n : Z) : list byte :=
  read_from m p (Z.to_nat n).

(** ** The queue *)

Module Queue.

Definition MAX_NO_OF_QUEUE_ELEMENTS : Z := 20.

Record Queue_Descriptor_t : Type := mkQueue {
  buffer : Z;        (* void *buffer *)
  elementSize : Z;   (* uint16_t *)
  maxElements : Z;   (* uint16_t *)
  head : Z;          (* uint16_t *)
  tail : Z;          (* uint16_t *)
  count : Z          (* uint16_t *)
}.

(** [minirtos_Queue_Create ptrq q buffer elementSize maxElements]:
    [ptrq] is the address of the descriptor and [q] its contents before
    the call. *)
Definition minirtos_Queue_Create (ptrq : Z) (q : Queue_Descriptor_t)
    (buffer elementSize maxElements : Z) : Queue_Descriptor_t * bool :=
  if (ptrq =? NULL) || (buffer =? NULL) || (elementSize =? 0) || (maxElements =? 0)
  then (q, false)
  else
    ({| buffer := buffer;
        elementSize := elementSize;
        maxElements := if maxElements >? MAX_NO_OF_QUEUE_ELEMENTS
                       then MAX_NO_OF_QUEUE_ELEMENTS else maxElements;
        head := 0; tail := 0; count := 0 |}, true).

(** The byte offset of slot [i]: [uint16_t idx = i * elementSize].  The
    product is computed in [int] and truncated to 16 bits by the
    assignment. *)
Definition slot_index (q : Queue_Descriptor_t) (i : Z) : Z :=
  uint16 (i * elementSize q).

(** [minirtos_Queue_Send q m ptrmsg]: descriptor contents [q], memory [m].
    The remainder [%] is the one of C as long as [maxElements] is not
    zero, which [minirtos_Queue_Create] ensures. *)
Definition minirtos_Queue_Send (q : Queue_Descriptor_t) (m : memory) (ptrmsg : Z)
    : Queue_Descriptor_t * memory * bool :=
  if count q =? maxElements q then (q, m, false)
  else
    let idx := slot_index q (tail q) in
    let m' := memcpy m (buffer q + idx) ptrmsg (elementSize q) in
    ({| buffer := buffer q;
        elementSize := elementSize q;
        maxElements := maxElements q;
        head := head q;
        tail := uint16 ((tail q + 1) mod maxElements q);
        count := uint16 (count q + 1) |}, m', true).

Definition minirtos_Queue_Receive (q : Queue_Descriptor_t) (m : memory) (ptrmsg : Z)
    : Queue_Descriptor_t * memory * bool :=
  if count q =? 0 then (q, m, false)
  else
    let idx := slot_index q (head q) in
    let m' := memcpy m ptrmsg (buffer q + idx) (elementSize q) in
    ({| buffer := buffer q;
        elementSize := elementSize q;
        maxElements := maxElements q;
        head := uint16 ((head q + 1) mod maxElements q);
        tail := tail q;
        count := uint16 (count q - 1) |}, m', true).

Definition minirtos_Queue_Count (q : Queue_Descriptor_t) : Z := count q.

Definition minirtos_Queue_Flush (q : Queue_Descriptor_t) : Queue_Descriptor_t :=
  {| buffer := buffer q; elementSize := elementSize q; maxElements := maxElements q;
     head := 0; tail := 0; count := 0 |}.

(** A call of the queue interface after creation. *)
Inductive call : Type :=
  | Send (ptrmsg : Z)
  | Receive (ptrmsg : Z).

Definition step (st : Queue_Descriptor_t * memory) (c : call)
    : Queue_Descriptor_t * memory * bool :=
  match c with
  | Send p => minirtos_Queue_Send (fst st) (snd st) p
  | Receive p => minirtos_Queue_Receive (fst st) (snd st) p
  end.

(** Runs the calls in order, whatever each returns. *)
Definition run (st : Queue_Descriptor_t * memory) (cs : list call)
    : Queue_Descriptor_t * memory :=
  fold_left (fun st c => fst (step st c)) cs st.

(** The descriptor of a queue between two calls: the capacity is what
    [minirtos_Queue_Create] leaves, the indices are inside the ring and
    [tail] is [count] slots after [head]. *)
Record wf (q : Queue_Descriptor_t) : Prop := mk_wf {
  wf_cap : 1 <= maxElements q <= MAX_NO_OF_QUEUE_ELEMENTS;
  wf_size : 1 <= elementSize q < 2 ^ 16;
  wf_count : 0 <= count q <= maxElements q;
  wf_head : 0 <= head q < maxElements q;
  wf_tail : tail q = (head q + count q) mod maxElements q
}.

(** The address of slot [i], as Send and Receive compute it. *)
Definition slot (q : Queue_Descriptor_t) (i : Z) : Z := buffer q + slot_index q i.

(** The elements the queue holds, oldest first: the [count] slots from
    [head] on, around the ring. *)
Definition contents (q : Queue_Descriptor_t) (m : memory) : list (list byte) :=
  map (fun k : nat =>
         read_bytes m (slot q ((head q + Z.of_nat k) mod maxElements q)) (elementSize q))
      (seq 0 (Z.to_nat (count q))).

(** The byte offset of the last slot fits the 16-bit index. *)
Definition index_fits (q : Queue_Descriptor_t) : Prop :=
  (maxElements q - 1) * elementSize q < 2 ^ 16.

(** An element at [p] lies outside the storage of the queue. *)
Definition outside_buffer (q : Queue_Descriptor_t) (p : Z) : Prop :=
  p + elementSize q <= buffer q \/ buffer q + maxElements q * elementSize q <= p.

(** Sends the elements at the addresses [ps] in turn.  Returns, with the
    final state, the bytes each call was handed and whether every call
    returned true. *)
Fixpoint send_all (q : Queue_Descriptor_t) (m : memory) (ps : list Z)
    : Queue_Descriptor_t * memory * list (list byte) * bool :=
  match ps with
  | [] => (q, m, [], true)
  | p :: ps' =>
      let r := minirtos_Queue_Send q m p in
      let r' := send_all r.1.1 r.1.2 ps' in
      (r'.1.1.1, r'.1.1.2, read_bytes m p (elementSize q) :: r'.1.2, r.2 && r'.2)
  end.

(** Receives into the addresses [ds] in turn.  Returns, with the final
    state, the bytes found at each destination right after its call and
    whether every call returned true. *)
Fixpoint receive_all (q : Queue_Descriptor_t) (m : memory) (ds : list Z)
    : Queue_Descriptor_t * memory * list (list byte) * bool :=
  match ds with
  | [] => (q, m, [], true)
  | d :: ds' =>
      let r := minirtos_Queue_Receive q m d in
      let r' := receive_all r.1.1 r.1.2 ds' in
      (r'.1.1.1, r'.1.1.2, read_bytes r.1.2 d (elementSize q) :: r'.1.2, r.2 && r'.2)
  end.

End Queue.

(** ** The scheduler *)

(** The result of running a piece of code that may dereference a bad
    pointer or loop forever: [Done] with a value, [Crash] on an access
    outside the allocated objects, [Timeout] when the loop budget is used
    up before the loop exits. *)
Inductive outcome (A : Type) : Type :=
  | Done (a : A)
  | Crash
  | Timeout.
Arguments Done {A} a.
Arguments Crash {A}.
Arguments Timeout {A}.

#[global] Instance outcome_ret : MRet outcome := fun A a => Done a.
#[global] Instance outcome_bind : MBind outcome := fun A B f o =>
  match o with
  | Done a => f a
  | Crash => Crash
  | Timeout => Timeout
  end.

Module Sched.

Definition MAX_TASKS_NUMBER : Z := 255.
Definition MAX_TASK_INTERVAL : Z := 3600000.
Definition DEFAULT_TASK_INTERVAL : Z := 100.

(** [Task_Status_e].  The enumeration is used as an integer by the code
    (ordered with [>], masked with [&], matched with a [default:] case),
    so a status is the integer value the object holds. *)
Definition TASK_PAUSE : Z := 0.
Definition TASK_SCHEDULED : Z := 1.
Definition TASK_ONE_SHOT : Z := 2.
Definition TASK_RUN_NOW : Z := 3.
Definition TASK_ONE_SHOT_NOW : Z := 5.
Definition TASK_RUNNING : Z := 6.
Definition TASK_NOT_FOUND : Z := 255.

(** Modelled from the spec: the macro [ZERO] of [StdUtil.h], a header
    that is not part of the sources; the dispatch rule compares the
    signed difference with zero. *)
Definition ZERO : Z := 0.

Record Task_Descriptor_t : Type := mkTask {
  taskPointer : Z;    (* gptr_Task_Function, NULL = 0 *)
  taskInterval : Z;   (* uint32_t *)
  plannedTask : Z;    (* uint32_t *)
  taskStatus : Z;     (* Task_Status_e *)
  gptrTaskNext : Z    (* struct _Task_Descriptor_t * *)
}.

(** The global variables of [minirtos.c], the tick counter, and the task
    descriptors the application owns. *)
Record state : Type := mkState {
  glbInitialized : Z;     (* uint8_t *)
  glbNumberOfTasks : Z;   (* uint8_t *)
  gptrTaskSchedule : Z;
  gptrTaskFirst : Z;
  glbSysTicks : Z;        (* volatile uintmax_t *)
  heap : gmap Z Task_Descriptor_t
}.

Definition set_heap (s : state) (h : gmap Z Task_Descriptor_t) : state :=
  {| glbInitialized := glbInitialized s; glbNumberOfTasks := glbNumberOfTasks s;
     gptrTaskSchedule := gptrTaskSchedule s; gptrTaskFirst := gptrTaskFirst s;
     glbSysTicks := glbSysTicks s; heap := h |}.

Definition set_count (s : state) (n : Z) : state :=
  {| glbInitialized := glbInitialized s; glbNumberOfTasks := n;
     gptrTaskSchedule := gptrTaskSchedule s; gptrTaskFirst := gptrTaskFirst s;
     glbSysTicks := glbSysTicks s; heap := heap s |}.

Definition set_schedule (s : state) (p : Z) : state :=
  {| glbInitialized := glbInitialized s; glbNumberOfTasks := glbNumberOfTasks s;
     gptrTaskSchedule := p; gptrTaskFirst := gptrTaskFirst s;
     glbSysTicks := glbSysTicks s; heap := heap s |}.

Definition set_first (s : state) (p : Z) : state :=
  {| glbInitialized := glbInitialized s; glbNumberOfTasks := glbNumberOfTasks s;
     gptrTaskSchedule := gptrTaskSchedule s; gptrTaskFirst := p;
     glbSysTicks := glbSysTicks s; heap := heap s |}.

Definition set_ticks (s : state) (n : Z) : state :=
  {| glbInitialized := glbInitialized s; glbNumberOfTasks := glbNumberOfTasks s;
     gptrTaskSchedule := gptrTaskSchedule s; gptrTaskFirst := gptrTaskFirst s;
     glbSysTicks := n; heap := heap s |}.

(** [p->field] and [p->field = v]. *)
Definition load (h : gmap Z Task_Descriptor_t) (p : Z) : outcome Task_Descriptor_t :=
  match h !! p with
  | Some t => Done t
  | None => Crash
  end.

Definition store (h : gmap Z Task_Descriptor_t) (p : Z)
    (f : Task_Descriptor_t -> Task_Descriptor_t) : outcome (gmap Z Task_Descriptor_t) :=
  match h !! p with
  | Some t => Done (<[p := f t]> h)
  | None => Crash
  end.

Definition with_next (n : Z) (t : Task_Descriptor_t) : Task_Descriptor_t :=
  {| taskPointer := taskPointer t; taskInterval := taskInterval t;
     plannedTask := plannedTask t; taskStatus := taskStatus t; gptrTaskNext := n |}.

Definition with_status (st : Z) (t : Task_Descriptor_t) : Task_Descriptor_t :=
  {| taskPointer := taskPointer t; taskInterval := taskInterval t;
     plannedTask := plannedTask t; taskStatus := st; gptrTaskNext := gptrTaskNext t |}.

Definition with_planned (d : Z) (t : Task_Descriptor_t) : Task_Descriptor_t :=
  {| taskPointer := taskPointer t; taskInterval := taskInterval t;
     plannedTask := d; taskStatus := taskStatus t; gptrTaskNext := gptrTaskNext t |}.

Definition with_interval (i : Z) (t : Task_Descriptor_t) : Task_Descriptor_t :=
  {| taskPointer := taskPointer t; taskInterval := i;
     plannedTask := plannedTask t; taskStatus := taskStatus t; gptrTaskNext := gptrTaskNext t |}.

Definition with_pointer (f : Z) (t : Task_Descriptor_t) : Task_Descriptor_t :=
  {| taskPointer := f; taskInterval := taskInterval t;
     plannedTask := plannedTask t; taskStatus := taskStatus t; gptrTaskNext := gptrTaskNext t |}.

(** The state of the globals when the program starts: [gptrTaskFirst] has
    the initialiser [NULL], the other objects of static storage are zero. *)
Definition boot (ticks : Z) (h : gmap Z Task_Descriptor_t) : state :=
  {| glbInitialized := 0; glbNumberOfTasks := 0; gptrTaskSchedule := NULL;
     gptrTaskFirst := NULL; glbSysTicks := ticks; heap := h |}.

Definition minirtos_Init (s : state) : state :=
  {| glbInitialized := 1; glbNumberOfTasks := 0; gptrTaskSchedule := NULL;
     gptrTaskFirst := gptrTaskFirst s; glbSysTicks := 0; heap := heap s |}.

(** Modelled from the spec: the tick source, an interrupt handler of the
    board support code that is not part of the sources; it advances the
    counter by one unit and the counter wraps on overflow. *)
Definition tick (s : state) : state :=
  set_ticks s (uintmax (glbSysTicks s + 1)).

(** [while (p->gptrTaskNext != stop) p = p->gptrTaskNext;] with one unit
    of [fuel] for each evaluation of the loop condition. *)
Fixpoint walk (fuel : nat) (h : gmap Z Task_Descriptor_t) (p stop : Z) : outcome Z :=
  match fuel with
  | O => Timeout
  | S fuel' =>
      t ← load h p;
      if gptrTaskNext t =? stop then Done p else walk fuel' h (gptrTaskNext t) stop
  end.

(** The [switch] of [minirtos_AddTask] over the requested status. *)
Definition checked_status (taskStatus : Z) : Z :=
  if taskStatus =? TASK_PAUSE then taskStatus
  else if taskStatus =? TASK_SCHEDULED then taskStatus
  else if taskStatus =? TASK_ONE_SHOT then taskStatus
  else if taskStatus =? TASK_RUN_NOW then taskStatus
  else if taskStatus =? TASK_ONE_SHOT_NOW then taskStatus
  else TASK_SCHEDULED.

(** The interval test of [minirtos_AddTask]. *)
Definition checked_interval (taskInterval : Z) : Z :=
  if (taskInterval <? 0) || (taskInterval >? MAX_TASK_INTERVAL)
  then DEFAULT_TASK_INTERVAL else taskInterval.

(** What a call returns besides the new state: the C return value and the
    pointers it handed to [free], in order. *)
Record result : Type := mkResult {
  after : state;
  ret : bool;
  freed : list Z
}.

(** The insertion block of [minirtos_AddTask] (the [if (gptrTaskFirst !=
    NULL)] statement): on a list that is not empty, the walk starts at
    the dispatch cursor and stops at the node that links to the first
    task; that node is linked to the new descriptor and the new
    descriptor to the first task. *)
Definition link_task (fuel : nat) (s : state) (ptrTaskDescriptor : Z) : outcome state :=
  if negb (gptrTaskFirst s =? NULL) then
    ptrNewTask ← walk fuel (heap s) (gptrTaskSchedule s) (gptrTaskFirst s);
    h1 ← store (heap s) ptrNewTask (with_next ptrTaskDescriptor);
    h2 ← store h1 ptrTaskDescriptor (with_next (gptrTaskFirst s));
    Done (set_heap s h2)
  else
    let s' := set_schedule (set_first s ptrTaskDescriptor) ptrTaskDescriptor in
    h1 ← store (heap s') ptrTaskDescriptor (with_next ptrTaskDescriptor);
    Done (set_heap s' h1).

(** The rest of the success path of [minirtos_AddTask]: the planned tick
    and the status, the period, the task body, the task count. *)
Definition fill_task (s : state) (ptrTaskDescriptor ptrUserTask taskInterval taskStatus : Z)
    : outcome state :=
  h3 ← (if (taskStatus =? TASK_RUN_NOW) || (taskStatus =? TASK_ONE_SHOT_NOW) then
          store (heap s) ptrTaskDescriptor (with_planned (uint32 (glbSysTicks s)))
        else
          h ← store (heap s) ptrTaskDescriptor (with_status taskStatus);
          store h ptrTaskDescriptor
            (with_planned (uint32 (uintmax (glbSysTicks s + taskInterval)))));
  h4 ← store h3 ptrTaskDescriptor (with_interval taskInterval);
  h5 ← store h4 ptrTaskDescriptor (with_pointer ptrUserTask);
  Done (set_count (set_heap s h5) (uint8 (glbNumberOfTasks s + 1))).

(** [minirtos_AddTask].  [scratch] is the pointer [malloc] returns at the
    top of the function; it is handed to [free] on the paths that fail
    and is lost on the path that succeeds. *)
Definition minirtos_AddTask (fuel : nat) (scratch : Z) (s : state)
    (ptrTaskDescriptor ptrUserTask taskInterval taskStatus : Z) : outcome result :=
  if (glbInitialized s =? 0) || (glbNumberOfTasks s =? MAX_TASKS_NUMBER)
     || (ptrUserTask =? NULL)
  then Done (mkResult s false [scratch])
  else
    let taskInterval := checked_interval taskInterval in
    let taskStatus := checked_status taskStatus in
    if negb (ptrTaskDescriptor =? NULL) then
      s1 ← link_task fuel s ptrTaskDescriptor;
      s2 ← fill_task s1 ptrTaskDescriptor ptrUserTask taskInterval taskStatus;
      Done (mkResult s2 true [])
    else Done (mkResult s false [scratch]).

(** [minirtos_RemoveTask].  The last statement before the return is
    [free(ptrNewTask)], and [ptrNewTask] is by then the node the walk
    stopped at; what [free] does to an object [malloc] did not return is
    not defined by C, so the call is recorded and the heap is left as it
    is: the state of the result is the one the stores before that call
    leave, and says nothing of what the program does after it. *)
Definition minirtos_RemoveTask (fuel : nat) (scratch : Z) (s : state)
    (ptrUserTaskDescriptor : Z) : outcome result :=
  if (glbInitialized s =? 0) || (glbNumberOfTasks s =? MAX_TASKS_NUMBER)
     || (ptrUserTaskDescriptor =? NULL)
  then Done (mkResult s false [scratch])
  else
    ptrNewTask ← walk fuel (heap s) (gptrTaskFirst s) ptrUserTaskDescriptor;
    t ← load (heap s) ptrNewTask;
    s1 ← (if gptrTaskNext t =? gptrTaskFirst s then
            tn ← load (heap s) (gptrTaskNext t);
            Done (set_first s (gptrTaskNext tn))
          else
            tu ← load (heap s) ptrUserTaskDescriptor;
            h1 ← store (heap s) ptrNewTask (with_next (gptrTaskNext tu));
            Done (set_heap s h1));
    Done (mkResult (set_count s1 (uint8 (glbNumberOfTasks s1 - 1))) true [ptrNewTask]).

Definition minirtos_PauseTask (s : state) (ptrTaskDescriptor : Z) : outcome (state * bool) :=
  if (glbInitialized s =? 0) || (ptrTaskDescriptor =? NULL) then Done (s, false)
  else
    h ← store (heap s) ptrTaskDescriptor (with_status TASK_PAUSE);
    Done (set_heap s h, true).

Definition minirtos_ResumeTask (s : state) (ptrTaskDescriptor : Z) : outcome (state * bool) :=
  if (glbInitialized s =? 0) || (ptrTaskDescriptor =? NULL) then Done (s, false)
  else
    h ← store (heap s) ptrTaskDescriptor (with_status TASK_SCHEDULED);
    t ← load h ptrTaskDescriptor;
    h' ← store h ptrTaskDescriptor
           (with_planned (uint32 (uintmax (glbSysTicks s + taskInterval t))));
    Done (set_heap s h', true).

Definition minirtos_ModifyTask (s : state) (ptrTaskDescriptor taskInterval taskStatus : Z)
    : outcome (state * bool) :=
  if (glbInitialized s =? 0) || (ptrTaskDescriptor =? NULL) then Done (s, false)
  else if taskStatus >? TASK_ONE_SHOT_NOW then Done (s, false)
  else
    h1 ← store (heap s) ptrTaskDescriptor (with_interval taskInterval);
    h2 ← store h1 ptrTaskDescriptor (with_status taskStatus);
    h3 ← (if (taskStatus =? TASK_SCHEDULED) || (taskStatus =? TASK_ONE_SHOT) then
            store h2 ptrTaskDescriptor
              (with_planned (uint32 (uintmax (glbSysTicks s + taskInterval))))
          else store h2 ptrTaskDescriptor (with_planned 0));
    Done (set_heap s h3, true).

Definition minirtos_GetTaskStatus (s : state) (ptrTaskDescriptor : Z) : outcome Z :=
  if (glbInitialized s =? 0) || (ptrTaskDescriptor =? NULL) then Done TASK_NOT_FOUND
  else
    t ← load (heap s) ptrTaskDescriptor;
    Done (taskStatus t).

(** The test of the dispatch loop:
    [intmax_t elapsedTime = plannedTask - glbSysTicks; elapsedTime <= ZERO].
    [plannedTask] is converted to [uintmax_t], the subtraction wraps in
    that type and the result is converted to [intmax_t]. *)
Definition elapsedTime (planned ticks : Z) : Z := intmax (planned - ticks).

Definition due (planned ticks : Z) : bool := elapsedTime planned ticks <=? ZERO.

Section Dispatch.

(** What running the task body at a given function pointer does to the
    scheduler's state (a body may call the scheduler's interface, and
    time may pass while it runs). *)
Variable body : Z -> state -> state.

(** The body of [if (gptrTaskSchedule->taskStatus > TASK_PAUSE)]: the
    new state and the function pointers called. *)
Definition dispatch (s : state) (t : Task_Descriptor_t) : outcome (state * list Z) :=
  if due (plannedTask t) (glbSysTicks s) then
    if negb (Z.land (taskStatus t) TASK_ONE_SHOT =? 0) then
      if taskPointer t =? NULL then Crash
      else
        let s1 := body (taskPointer t) s in
        h ← store (heap s1) (gptrTaskSchedule s1) (with_status TASK_PAUSE);
        Done (set_heap s1 h, [taskPointer t])
    else
      h ← store (heap s) (gptrTaskSchedule s)
            (with_planned (uint32 (uintmax (glbSysTicks s + taskInterval t))));
      if taskPointer t =? NULL then Crash
      else Done (body (taskPointer t) (set_heap s h), [taskPointer t])
  else Done (s, []).

(** One iteration of the [while (1)] loop of [minirtos_Scheduler]: the
    new state and the function pointers called, in order. *)
Definition Scheduler_iteration (s : state) : outcome (state * list Z) :=
  if negb (gptrTaskSchedule s =? NULL) && negb (glbNumberOfTasks s =? 0) then
    t ← load (heap s) (gptrTaskSchedule s);
    r ← (if taskStatus t >? TASK_PAUSE then dispatch s t else Done (s, []));
    if negb (gptrTaskSchedule r.1 =? NULL) then
      t' ← load (heap r.1) (gptrTaskSchedule r.1);
      Done (set_schedule r.1 (gptrTaskNext t'), r.2)
    else Done r
  else Done (s, []).

(** [n] iterations of the loop: the final state and all the calls made. *)
Fixpoint Scheduler_iterations (n : nat) (s : state) : outcome (state * list Z) :=
  match n with
  | O => Done (s, [])
  | S n' =>
      r ← Scheduler_iteration s;
      r' ← Scheduler_iterations n' r.1;
      Done (r'.1, r.2 ++ r'.2)
  end.

End Dispatch.


(** ** The shape of the task list *)

(** [follow n h p]: the node reached from [p] after [n] steps along
    [gptrTaskNext]. *)
Fixpoint follow (n : nat) (h : gmap Z Task_Descriptor_t) (p : Z) : outcome Z :=
  match n with
  | O => Done p
  | S n' => t ← load h p; follow n' h (gptrTaskNext t)
  end.

(** [chain h a l z]: the links lead from [a] through the nodes of [l], in
    order, and the last of these nodes links to [z]. *)
Fixpoint chain (h : gmap Z Task_Descriptor_t) (a : Z) (l : list Z) (z : Z) : Prop :=
  match l with
  | [] => gptrTaskNext <$> h !! a = Some z
  | b :: l' => gptrTaskNext <$> h !! a = Some b /\ chain h b l' z
  end.

(** [ring s l]: the task list of [s] is the circle of the distinct
    descriptors [l], first task first; the scheduler is initialised, it
    counts [length l] tasks and the dispatch cursor is on the first
    task. *)
Definition ring (s : state) (l : list Z) : Prop :=
  glbInitialized s <> 0 /\
  glbNumberOfTasks s = Z.of_nat (length l) /\
  (length l <= 255)%nat /\
  match l with
  | [] => gptrTaskFirst s = NULL
  | a :: l' =>
      gptrTaskFirst s = a /\ gptrTaskSchedule s = a /\
      NoDup (a :: l') /\ (NULL ∉ a :: l') /\ chain (heap s) a l' a
  end.

(** ** What the calls leave in a descriptor *)

(** The descriptor [fill_task] leaves, from its contents [t] before. *)
Definition filled (ticks ptrUserTask taskInterval taskStatus : Z) (t : Task_Descriptor_t)
    : Task_Descriptor_t :=
  if (taskStatus =? TASK_RUN_NOW) || (taskStatus =? TASK_ONE_SHOT_NOW) then
    {| taskPointer := ptrUserTask; taskInterval := taskInterval;
       plannedTask := uint32 ticks;
       taskStatus := Sched.taskStatus t;
       gptrTaskNext := gptrTaskNext t |}
  else
    {| taskPointer := ptrUserTask; taskInterval := taskInterval;
       plannedTask := uint32 (uintmax (ticks + taskInterval));
       taskStatus := taskStatus;
       gptrTaskNext := gptrTaskNext t |}.

(** The descriptor a successful [minirtos_ModifyTask] leaves. *)
Definition modified (ticks taskInterval taskStatus : Z) (t : Task_Descriptor_t)
    : Task_Descriptor_t :=
  {| taskPointer := taskPointer t; taskInterval := taskInterval;
     plannedTask := if (taskStatus =? TASK_SCHEDULED) || (taskStatus =? TASK_ONE_SHOT)
                    then uint32 (uintmax (ticks + taskInterval)) else 0;
     taskStatus := taskStatus;
     gptrTaskNext := gptrTaskNext t |}.

(** The enumerators of [Task_Status_e]. *)
Definition enumerated (st : Z) : Prop :=
  st = TASK_PAUSE \/ st = TASK_SCHEDULED \/ st = TASK_ONE_SHOT \/ st = TASK_RUN_NOW \/
  st = TASK_ONE_SHOT_NOW \/ st = TASK_RUNNING \/ st = TASK_NOT_FOUND.

(** ** Series of additions *)

(** What the application passes to one call of [minirtos_AddTask]. *)
Record request : Type := mkRequest {
  req_task : Z;       (* ptrTaskDescriptor *)
  req_body : Z;       (* ptrUserTask *)
  req_interval : Z;   (* taskInterval *)
  req_status : Z      (* taskStatus *)
}.

(** Calls [minirtos_AddTask] for each request in turn; returns the final
    state and whether every call returned true. *)
Fixpoint add_all (fuel : nat) (scratch : Z) (s : state) (rs : list request)
    : outcome (state * bool) :=
  match rs with
  | [] => Done (s, true)
  | r :: rs' =>
      x ← minirtos_AddTask fuel scratch s (req_task r) (req_body r)
            (req_interval r) (req_status r);
      y ← add_all fuel scratch (after x) rs';
      Done (y.1, ret x && y.2)
  end.

(** A task body that leaves the scheduler's state as it is. *)
Definition quiet (body : Z -> state -> state) : Prop :=
  forall f s, body f s = s.

(** ** What the loop and the status calls are measured against *)

(** The call one iteration makes with the cursor on [p]: the body of the
    task there when its status is above [TASK_PAUSE] and the test on its
    planned tick judges it due, and none otherwise. *)
Definition call_of (s : state) (p : Z) : list Z :=
  match heap s !! p with
  | Some t =>
      if (taskStatus t >? TASK_PAUSE) && due (plannedTask t) (glbSysTicks s)
      then [taskPointer t] else []
  | None => []
  end.

(** [same_list s s']: the two states have the same task list -- the same
    flag, count, first task and cursor, and every descriptor has the same
    link. *)
Definition same_list (s s' : state) : Prop :=
  glbInitialized s' = glbInitialized s /\
  glbNumberOfTasks s' = glbNumberOfTasks s /\
  gptrTaskFirst s' = gptrTaskFirst s /\
  gptrTaskSchedule s' = gptrTaskSchedule s /\
  forall q, gptrTaskNext <$> heap s' !! q = gptrTaskNext <$> heap s !! q.

End Sched.


(** ** Concrete runs *)

Module Examples.

(** A descriptor object before [minirtos_Queue_Create] has filled it. *)
Definition blank : Queue.Queue_Descriptor_t := Queue.mkQueue 0 0 0 0 0 0.

(** [fill m p n b]: the memory [m] with the [n] bytes at [p] set to [b]. *)
Definition fill (m : memory) (p n : Z) (b : byte) : memory :=
  fun a => if (p <=? a) && (a <? p + n) then b else m a.

(** A queue of three elements of 32768 bytes with its storage at address
    100000, and three such elements in memory: bytes [0x11] at 200000,
    bytes [0x22] at 240000, bytes [0x33] at 280000. *)
Definition big_queue : Queue.Queue_Descriptor_t * bool :=
  Queue.minirtos_Queue_Create 1000 blank 100000 32768 3.

Definition big_memory : memory :=
  fill (fill (fill (fun _ => x00) 200000 32768 x11) 240000 32768 x22) 280000 32768 x33.

(** The scenario of the specification: elements of four bytes, capacity
    three, the 32-bit values stored least significant byte first. *)
Definition word_memory : memory :=
  fun a =>
    nth (Z.to_nat (a - 2000))
        [xbb; xbb; xaa; xaa;  xdd; xdd; xcc; xcc;  xff; xff; xee; xee;
         x22; x22; x11; x11] x00.

Definition word_queue : Queue.Queue_Descriptor_t * bool :=
  Queue.minirtos_Queue_Create 1000 blank 5000 4 3.

(** Three descriptors of the application in zeroed static storage, at the
    addresses 10, 20 and 30, and the scheduler just initialised. *)
Definition zero_task : Sched.Task_Descriptor_t := Sched.mkTask 0 0 0 0 0.

Definition three_objects : gmap Z Sched.Task_Descriptor_t :=
  <[10 := zero_task]> (<[20 := zero_task]> (<[30 := zero_task]> ∅)).

Definition ready : Sched.state := Sched.minirtos_Init (Sched.boot 0 three_objects).

(** A task body that does not touch the scheduler. *)
Definition idle : Z -> Sched.state -> Sched.state := fun _ s => s.

(** The tasks at 10, 20 and 30 are added in this order, each scheduled
    with a period of 50 ticks. *)
Definition three_tasks : outcome Sched.result :=
  r1 ← Sched.minirtos_AddTask 255 901 ready 10 7 50 Sched.TASK_SCHEDULED;
  r2 ← Sched.minirtos_AddTask 255 902 (Sched.after r1) 20 8 50 Sched.TASK_SCHEDULED;
  Sched.minirtos_AddTask 255 903 (Sched.after r2) 30 9 50 Sched.TASK_SCHEDULED.

(** ... and then the first of them is removed. *)
Definition head_removed : outcome Sched.result :=
  r ← three_tasks; Sched.minirtos_RemoveTask 255 904 (Sched.after r) 10.

(** One task is added ... *)
Definition one_task : outcome Sched.result :=
  Sched.minirtos_AddTask 255 901 ready 10 7 50 Sched.TASK_SCHEDULED.

(** ... and removed again ... *)
Definition sole_removed : outcome Sched.result :=
  r ← one_task; Sched.minirtos_RemoveTask 255 904 (Sched.after r) 10.

(** ... and then the task at 20 is added. *)
Definition added_after_sole_removed : outcome Sched.result :=
  r ← sole_removed;
  Sched.minirtos_AddTask 255 905 (Sched.after r) 20 8 50 Sched.TASK_SCHEDULED.

(** The state [three_tasks] ends in. *)
Definition three_state : Sched.state :=
  {| Sched.glbInitialized := 1; Sched.glbNumberOfTasks := 3;
     Sched.gptrTaskSchedule := 10; Sched.gptrTaskFirst := 10;
     Sched.glbSysTicks := 0;
     Sched.heap :=
       <[10 := Sched.mkTask 7 50 50 Sched.TASK_SCHEDULED 20]>
         (<[20 := Sched.mkTask 8 50 50 Sched.TASK_SCHEDULED 30]>
            (<[30 := Sched.mkTask 9 50 50 Sched.TASK_SCHEDULED 10]> ∅)) |}.

(** The three requests of [three_tasks]. *)
Definition three_requests : list Sched.request :=
  [Sched.mkRequest 10 7 50 Sched.TASK_SCHEDULED;
   Sched.mkRequest 20 8 50 Sched.TASK_SCHEDULED;
   Sched.mkRequest 30 9 50 Sched.TASK_SCHEDULED].

(** One paused task, at a tick far beyond its planned tick. *)
Definition paused_state : Sched.state :=
  {| Sched.glbInitialized := 1; Sched.glbNumberOfTasks := 1;
     Sched.gptrTaskSchedule := 10; Sched.gptrTaskFirst := 10;
     Sched.glbSysTicks := 1000;
     Sched.heap := {[10 := Sched.mkTask 7 50 50 Sched.TASK_PAUSE 10]} |}.

(** One task in status [TASK_ONE_SHOT], at its planned tick. *)
Definition one_shot_state : Sched.state :=
  {| Sched.glbInitialized := 1; Sched.glbNumberOfTasks := 1;
     Sched.gptrTaskSchedule := 10; Sched.gptrTaskFirst := 10;
     Sched.glbSysTicks := 50;
     Sched.heap := {[10 := Sched.mkTask 7 50 50 Sched.TASK_ONE_SHOT 10]} |}.

(** The state [one_task] ends in. *)
Definition one_state : Sched.state :=
  {| Sched.glbInitialized := 1; Sched.glbNumberOfTasks := 1;
     Sched.gptrTaskSchedule := 10; Sched.gptrTaskFirst := 10;
     Sched.glbSysTicks := 0;
     Sched.heap := <[10 := Sched.mkTask 7 50 50 Sched.TASK_SCHEDULED 10]> three_objects |}.

(** One task whose status is then set with [minirtos_ModifyTask]. *)
Definition one_task_in (status : Z) : outcome (Sched.state * bool) :=
  r ← one_task; Sched.minirtos_ModifyTask (Sched.after r) 10 50 status.

(** A task is added 105 ticks before the tick counter wraps, with a
    period of 100 ticks; then the counter reaches its last value and the
    next tick wraps it. *)
Definition before_wrap : outcome Sched.result :=
  Sched.minirtos_AddTask 255 901 (Sched.set_ticks ready (2 ^ 64 - 105)) 10 7 100
    Sched.TASK_SCHEDULED.

Definition after_wrap : outcome Sched.state :=
  r ← before_wrap; Done (Sched.tick (Sched.set_ticks (Sched.after r) (2 ^ 64 - 1))).

(** The calls of the scenario of the specification on [word_queue]. *)
Definition word_calls : list Queue.call :=
  [Queue.Send 2000; Queue.Send 2004; Queue.Send 2008; Queue.Send 2012;
   Queue.Receive 3000].

(** [word_queue] after two Sends: it holds the elements from 2000 and
    from 2004, [head] is 0 and [tail] is 2. *)
Definition two_sent : Queue.Queue_Descriptor_t * memory :=
  Queue.run (word_queue.1, word_memory) [Queue.Send 2000; Queue.Send 2004].

(** [word_queue] after the calls of [word_calls]: it holds the elements
    from 2004 and from 2008, [head] is 1 and [tail] is back on 0. *)
Definition word_state : Queue.Queue_Descriptor_t * memory :=
  Queue.run (word_queue.1, word_memory) word_calls.

(** [three_state] at tick 50, when the three tasks are due, with the
    dispatch cursor on the second task. *)
Definition three_due : Sched.state :=
  Sched.set_schedule (Sched.set_ticks three_state 50) 20.

End Examples.

(** * Properties of the queue *)

Module QueueFacts.
Import Queue.

Lemma uint16_small x : 0 <= x < 2 ^ 16 -> uint16 x = x.
Proof. intros H. unfold uint16. now apply Z.mod_small. Qed.

Lemma Create_true ptrq q0 buf es cap q :
  minirtos_Queue_Create ptrq q0 buf es cap = (q, true) ->
  ptrq <> NULL /\ buf <> NULL /\ es <> 0 /\ cap <> 0 /\
  q = {| buffer := buf; elementSize := es;
         maxElements := if cap >? MAX_NO_OF_QUEUE_ELEMENTS
                        then MAX_NO_OF_QUEUE_ELEMENTS else cap;
         head := 0; tail := 0; count := 0 |}.
Proof.
  unfold minirtos_Queue_Create.
  destruct (ptrq =? NULL) eqn:E1; [discriminate|].
  destruct (buf =? NULL) eqn:E2; [discriminate|].
  destruct (es =? 0) eqn:E3; [discriminate|].
  destruct (cap =? 0) eqn:E4; [discriminate|].
  cbn [orb]. intros [= <-].
  apply Z.eqb_neq in E1, E2, E3, E4. auto.
Qed.

Lemma Create_wf ptrq q0 buf es cap q :
  is_uint16 es -> is_uint16 cap ->
  minirtos_Queue_Create ptrq q0 buf es cap = (q, true) -> wf q.
Proof.
  unfold is_uint16. intros Hes Hcap Hc.
  apply Create_true in Hc as (_ & _ & Hes0 & Hcap0 & ->).
  unfold MAX_NO_OF_QUEUE_ELEMENTS.
  destruct (cap >? 20) eqn:E.
  - constructor; cbn [maxElements elementSize count head tail];
      unfold MAX_NO_OF_QUEUE_ELEMENTS; try lia; reflexivity.
  - rewrite Z.gtb_ltb in E. apply Z.ltb_ge in E.
    constructor; cbn [maxElements elementSize count head tail];
      unfold MAX_NO_OF_QUEUE_ELEMENTS; try lia.
    change (0 + 0) with 0. rewrite Z.mod_0_l; lia.
Qed.

(** What a call does, case by case. *)
Lemma Send_full q m p :
  count q = maxElements q -> minirtos_Queue_Send q m p = (q, m, false).
Proof. intros H. unfold minirtos_Queue_Send. now rewrite (proj2 (Z.eqb_eq _ _) H). Qed.

Lemma Send_room q m p :
  count q <> maxElements q ->
  minirtos_Queue_Send q m p =
    ({| buffer := buffer q; elementSize := elementSize q;
        maxElements := maxElements q; head := head q;
        tail := uint16 ((tail q + 1) mod maxElements q);
        count := uint16 (count q + 1) |},
     memcpy m (buffer q + slot_index q (tail q)) p (elementSize q), true).
Proof. intros H. unfold minirtos_Queue_Send. now rewrite (proj2 (Z.eqb_neq _ _) H). Qed.

Lemma Receive_empty q m p :
  count q = 0 -> minirtos_Queue_Receive q m p = (q, m, false).
Proof. intros H. unfold minirtos_Queue_Receive. now rewrite (proj2 (Z.eqb_eq _ _) H). Qed.

Lemma Receive_some q m p :
  count q <> 0 ->
  minirtos_Queue_Receive q m p =
    ({| buffer := buffer q; elementSize := elementSize q;
        maxElements := maxElements q;
        head := uint16 ((head q + 1) mod maxElements q);
        tail := tail q;
        count := uint16 (count q - 1) |},
     memcpy m p (buffer q + slot_index q (head q)) (elementSize q), true).
Proof. intros H. unfold minirtos_Queue_Receive. now rewrite (proj2 (Z.eqb_neq _ _) H). Qed.

Lemma Send_wf q m p : wf q -> wf (minirtos_Queue_Send q m p).1.1.
Proof.
  intros [Hc Hs Hn Hh Ht]. unfold MAX_NO_OF_QUEUE_ELEMENTS in Hc.
  destruct (Z.eq_dec (count q) (maxElements q)) as [E|E].
  - rewrite Send_full by assumption. now constructor.
  - rewrite Send_room by assumption. cbn.
    assert (Hm : 0 <= (tail q + 1) mod maxElements q < maxElements q)
      by (apply Z.mod_pos_bound; lia).
    constructor; cbn; unfold MAX_NO_OF_QUEUE_ELEMENTS;
      rewrite ?uint16_small by lia; try lia.
    rewrite Ht, Zplus_mod_idemp_l. f_equal. lia.
Qed.

Lemma Receive_wf q m p : wf q -> wf (minirtos_Queue_Receive q m p).1.1.
Proof.
  intros [Hc Hs Hn Hh Ht]. unfold MAX_NO_OF_QUEUE_ELEMENTS in Hc.
  destruct (Z.eq_dec (count q) 0) as [E|E].
  - rewrite Receive_empty by assumption. now constructor.
  - rewrite Receive_some by assumption. cbn.
    assert (Hm : 0 <= (head q + 1) mod maxElements q < maxElements q)
      by (apply Z.mod_pos_bound; lia).
    constructor; cbn; unfold MAX_NO_OF_QUEUE_ELEMENTS;
      rewrite ?uint16_small by lia; try lia.
    rewrite Ht, Zplus_mod_idemp_l. f_equal. lia.
Qed.

Lemma step_wf st c : wf st.1 -> wf (step st c).1.1.
Proof. destruct c; cbn; [apply Send_wf | apply Receive_wf]. Qed.

Lemma run_wf cs : forall st, wf st.1 -> wf (run st cs).1.
Proof.
  induction cs as [|c cs IH]; intros st H; [exact H|].
  cbn. apply IH. destruct (step st c) as [[q' m'] b] eqn:E. cbn.
  pose proof (step_wf st c H) as H'. now rewrite E in H'.
Qed.

(** C2.  After a successful [minirtos_Queue_Create], and whatever calls of
    Send and Receive follow: the count lies between [0] and the capacity;
    Send returns false exactly when the count equals the capacity and
    Receive returns false exactly when the count is zero; a Receive that
    fails leaves the descriptor and every byte of memory (so the caller's
    destination) as they were, and so does a Send that fails. *)
Theorem queue_failure_iff ptrq q0 buf es cap q m0 cs :
  is_uint16 es -> is_uint16 cap ->
  minirtos_Queue_Create ptrq q0 buf es cap = (q, true) ->
  0 <= count (run (q, m0) cs).1 <= maxElements (run (q, m0) cs).1 /\
  (forall p, (minirtos_Queue_Send (run (q, m0) cs).1 (run (q, m0) cs).2 p).2 = false
             <-> count (run (q, m0) cs).1 = maxElements (run (q, m0) cs).1) /\
  (forall p, (minirtos_Queue_Receive (run (q, m0) cs).1 (run (q, m0) cs).2 p).2 = false
             <-> count (run (q, m0) cs).1 = 0) /\
  (forall p, (minirtos_Queue_Receive (run (q, m0) cs).1 (run (q, m0) cs).2 p).2 = false ->
             (minirtos_Queue_Receive (run (q, m0) cs).1 (run (q, m0) cs).2 p).1
             = run (q, m0) cs) /\
  (forall p, (minirtos_Queue_Send (run (q, m0) cs).1 (run (q, m0) cs).2 p).2 = false ->
             (minirtos_Queue_Send (run (q, m0) cs).1 (run (q, m0) cs).2 p).1
             = run (q, m0) cs).
Proof.
  intros Hes Hcap Hc.
  pose proof (run_wf cs (q, m0) (Create_wf _ _ _ _ _ _ Hes Hcap Hc)) as W.
  destruct (run (q, m0) cs) as [q' m']. cbn [fst snd] in *.
  split; [apply W|].
  assert (S : forall p, (minirtos_Queue_Send q' m' p).2 = false
                        <-> count q' = maxElements q').
  { intros p. destruct (Z.eq_dec (count q') (maxElements q')) as [E|E].
    - rewrite Send_full by assumption. tauto.
    - rewrite Send_room by assumption. cbn. split; [discriminate | tauto]. }
  assert (R : forall p, (minirtos_Queue_Receive q' m' p).2 = false <-> count q' = 0).
  { intros p. destruct (Z.eq_dec (count q') 0) as [E|E].
    - rewrite Receive_empty by assumption. tauto.
    - rewrite Receive_some by assumption. cbn. split; [discriminate | tauto]. }
  repeat split; try apply S; try apply R.
  - intros p H. apply R in H. now rewrite Receive_empty.
  - intros p H. apply S in H. now rewrite Send_full.
Qed.

(** ** Memory copies *)

Lemma memcpy_inside m dst src n a :
  dst <= a < dst + n -> memcpy m dst src n a = m (src + (a - dst)).
Proof.
  intros H. unfold memcpy.
  destruct (dst <=? a) eqn:E1; [|apply Z.leb_gt in E1; lia].
  destruct (a <? dst + n) eqn:E2; [reflexivity|apply Z.ltb_ge in E2; lia].
Qed.

Lemma memcpy_outside m dst src n a :
  a < dst \/ dst + n <= a -> memcpy m dst src n a = m a.
Proof.
  intros H. unfold memcpy.
  destruct (dst <=? a) eqn:E1; [|reflexivity].
  destruct (a <? dst + n) eqn:E2; [|reflexivity].
  apply Z.leb_le in E1. apply Z.ltb_lt in E2. lia.
Qed.

Lemma read_from_ext m m' n : forall p p',
  (forall k, 0 <= k < Z.of_nat n -> m (p + k) = m' (p' + k)) ->
  read_from m p n = read_from m' p' n.
Proof.
  induction n as [|n IH]; intros p p' H; [reflexivity|].
  cbn [read_from]. f_equal.
  - specialize (H 0). rewrite !Z.add_0_r in H. apply H. lia.
  - apply IH. intros k Hk. specialize (H (1 + k)).
    rewrite !Z.add_assoc in H. apply H. lia.
Qed.

Lemma read_bytes_ext m m' p p' n :
  (forall k, 0 <= k < n -> m (p + k) = m' (p' + k)) ->
  read_bytes m p n = read_bytes m' p' n.
Proof.
  intros H. unfold read_bytes. apply read_from_ext. intros k Hk. apply H. lia.
Qed.

Lemma read_bytes_memcpy m dst src n :
  read_bytes (memcpy m dst src n) dst n = read_bytes m src n.
Proof.
  apply read_bytes_ext. intros k Hk.
  rewrite memcpy_inside by lia. f_equal. lia.
Qed.

Lemma read_bytes_length m p n : length (read_bytes m p n) = Z.to_nat n.
Proof.
  unfold read_bytes. generalize (Z.to_nat n) as k. intros k. revert p.
  induction k as [|k IH]; intros p; [reflexivity|]. cbn. now rewrite IH.
Qed.

(** ** The ring *)

Lemma ring_inj a b c n :
  0 <= b < n -> 0 <= c < n -> (a + b) mod n = (a + c) mod n -> b = c.
Proof.
  intros Hb Hc H.
  assert (D : ((a + b) - (a + c)) mod n = 0).
  { rewrite Zminus_mod, H, Z.sub_diag. apply Z.mod_0_l. lia. }
  replace (a + b - (a + c)) with (b - c) in D by lia.
  apply Z.mod_divide in D; [|lia]. destruct D as [k Hk].
  assert (k = 0) by nia. lia.
Qed.

Lemma slot_index_fits q i :
  index_fits q -> 0 <= elementSize q -> 0 <= i < maxElements q ->
  slot_index q i = i * elementSize q.
Proof.
  unfold index_fits, slot_index. intros F Hs Hi. apply uint16_small. nia.
Qed.

Section Ring.

Variable q : Queue_Descriptor_t.
Hypothesis W : wf q.
Hypothesis F : index_fits q.

Lemma ring_slot k : 0 <= (head q + k) mod maxElements q < maxElements q.
Proof. pose proof (wf_cap q W). apply Z.mod_pos_bound. lia. Qed.

(** Two different slots of the ring share no byte. *)
Lemma slots_apart i j a :
  0 <= i < maxElements q -> 0 <= j < maxElements q -> i <> j ->
  slot q i <= a < slot q i + elementSize q ->
  a < slot q j \/ slot q j + elementSize q <= a.
Proof.
  intros Hi Hj Hne Ha. unfold slot in *.
  pose proof (wf_size q W) as Hs.
  rewrite slot_index_fits in * by (auto; lia). nia.
Qed.

(** Every slot lies inside the storage of the queue. *)
Lemma slot_in_buffer i :
  0 <= i < maxElements q ->
  buffer q <= slot q i /\ slot q i + elementSize q <= buffer q + maxElements q * elementSize q.
Proof.
  intros Hi. unfold slot. pose proof (wf_size q W) as Hs.
  rewrite slot_index_fits by (auto; lia). nia.
Qed.

(** A successful Send appends the element it was handed. *)
Lemma Send_contents m p :
  count q <> maxElements q ->
  contents (minirtos_Queue_Send q m p).1.1 (minirtos_Queue_Send q m p).1.2
  = contents q m ++ [read_bytes m p (elementSize q)].
Proof.
  intros Hroom. rewrite Send_room by assumption.
  destruct W as [Hc Hs Hn Hh Ht]. unfold MAX_NO_OF_QUEUE_ELEMENTS in Hc.
  unfold contents. cbn [fst snd maxElements elementSize count head tail buffer].
  rewrite (uint16_small (count q + 1)) by lia.
  replace (Z.to_nat (count q + 1)) with (S (Z.to_nat (count q))) by lia.
  rewrite seq_S, map_app. cbn [map Nat.add]. f_equal.
  - apply map_ext_in. intros k Hk. apply in_seq in Hk.
    apply read_bytes_ext. intros b Hb.
    apply memcpy_outside.
    change (buffer q + slot_index q (tail q)) with (slot q (tail q)).
    set (i := (head q + Z.of_nat k) mod maxElements q).
    assert (Hi : 0 <= i < maxElements q) by apply ring_slot.
    assert (Hj : 0 <= tail q < maxElements q) by (rewrite Ht; apply ring_slot).
    assert (Hne : i <> tail q).
    { unfold i. rewrite Ht. intros E. apply ring_inj in E; lia. }
    pose proof (slots_apart i (tail q) (slot q i + b) Hi Hj Hne) as A.
    change (slot {| buffer := buffer q; elementSize := elementSize q;
                    maxElements := maxElements q; head := head q;
                    tail := uint16 ((tail q + 1) mod maxElements q);
                    count := count q + 1 |} i) with (slot q i).
    lia.
  - f_equal. rewrite Z2Nat.id by lia. rewrite <- Ht.
    change (slot _ (tail q)) with (buffer q + slot_index q (tail q)).
    apply read_bytes_memcpy.
Qed.

(** A successful Receive into a destination outside the storage delivers
    the oldest element and leaves the others. *)
Lemma Receive_contents m p :
  count q <> 0 -> outside_buffer q p ->
  contents q m
  = read_bytes (minirtos_Queue_Receive q m p).1.2 p (elementSize q)
    :: contents (minirtos_Queue_Receive q m p).1.1 (minirtos_Queue_Receive q m p).1.2.
Proof.
  intros Hsome Hout. rewrite Receive_some by assumption.
  destruct W as [Hc Hs Hn Hh Ht]. unfold MAX_NO_OF_QUEUE_ELEMENTS in Hc.
  unfold contents. cbn [fst snd maxElements elementSize count head tail buffer].
  rewrite (uint16_small (count q - 1)) by lia.
  assert (Hm : 0 <= (head q + 1) mod maxElements q < maxElements q)
    by (apply Z.mod_pos_bound; lia).
  rewrite (uint16_small ((head q + 1) mod maxElements q)) by lia.
  replace (Z.to_nat (count q)) with (S (Z.to_nat (count q - 1))) by lia.
  cbn [seq map]. f_equal.
  - rewrite Z.add_0_r, (Z.mod_small (head q)) by lia.
    symmetry. apply read_bytes_memcpy.
  - rewrite <- seq_shift, map_map. apply map_ext_in. intros k Hk.
    apply in_seq in Hk.
    rewrite Zplus_mod_idemp_l.
    replace (head q + 1 + Z.of_nat k) with (head q + Z.of_nat (S k)) by lia.
    set (i := (head q + Z.of_nat (S k)) mod maxElements q).
    change (slot _ i) with (slot q i).
    apply read_bytes_ext. intros b Hb. symmetry. apply memcpy_outside.
    pose proof (slot_in_buffer i (ring_slot _)) as B.
    unfold outside_buffer in Hout. fold i in B. lia.
Qed.

End Ring.
(** ** Sequences of calls *)

Lemma Send_config q m p :
  buffer (minirtos_Queue_Send q m p).1.1 = buffer q /\
  elementSize (minirtos_Queue_Send q m p).1.1 = elementSize q /\
  maxElements (minirtos_Queue_Send q m p).1.1 = maxElements q /\
  head (minirtos_Queue_Send q m p).1.1 = head q.
Proof. unfold minirtos_Queue_Send. destruct (count q =? maxElements q); cbn; auto. Qed.

Lemma Receive_config q m p :
  buffer (minirtos_Queue_Receive q m p).1.1 = buffer q /\
  elementSize (minirtos_Queue_Receive q m p).1.1 = elementSize q /\
  maxElements (minirtos_Queue_Receive q m p).1.1 = maxElements q /\
  tail (minirtos_Queue_Receive q m p).1.1 = tail q.
Proof. unfold minirtos_Queue_Receive. destruct (count q =? 0); cbn; auto. Qed.

Lemma contents_length q m : length (contents q m) = Z.to_nat (count q).
Proof. unfold contents. now rewrite length_map, length_seq. Qed.

Lemma index_fits_config q q' :
  elementSize q' = elementSize q -> maxElements q' = maxElements q ->
  index_fits q -> index_fits q'.
Proof. unfold index_fits. now intros -> ->. Qed.

Lemma outside_buffer_config q q' p :
  buffer q' = buffer q -> elementSize q' = elementSize q ->
  maxElements q' = maxElements q -> outside_buffer q p -> outside_buffer q' p.
Proof. unfold outside_buffer. now intros -> -> ->. Qed.

Lemma send_all_contents ps : forall q m,
  wf q -> index_fits q -> (send_all q m ps).2 = true ->
  wf (send_all q m ps).1.1.1 /\
  (buffer (send_all q m ps).1.1.1 = buffer q /\
   elementSize (send_all q m ps).1.1.1 = elementSize q /\
   maxElements (send_all q m ps).1.1.1 = maxElements q) /\
  contents (send_all q m ps).1.1.1 (send_all q m ps).1.1.2
  = contents q m ++ (send_all q m ps).1.2.
Proof.
  induction ps as [|p ps IH]; intros q m W F Hok.
  - cbn. rewrite app_nil_r. auto.
  - cbn [send_all fst snd] in *.
    apply andb_true_iff in Hok as [Hs Hrest].
    assert (Hroom : count q <> maxElements q).
    { intros E. rewrite Send_full in Hs by assumption. discriminate. }
    destruct (Send_config q m p) as (Hb & He & Hc & _).
    pose proof (Send_wf q m p W) as W1.
    pose proof (index_fits_config q _ He Hc F) as F1.
    destruct (IH _ _ W1 F1 Hrest) as (W2 & (Hb2 & He2 & Hc2) & C2).
    split; [exact W2|]. split; [repeat split; congruence|].
    rewrite C2, (Send_contents q W F m p Hroom), <- app_assoc. reflexivity.
Qed.

Lemma receive_all_contents ds : forall q m,
  wf q -> index_fits q -> Forall (outside_buffer q) ds ->
  (length ds <= length (contents q m))%nat ->
  (receive_all q m ds).2 = true /\
  (receive_all q m ds).1.2 = firstn (length ds) (contents q m).
Proof.
  induction ds as [|d ds IH]; intros q m W F Hout Hlen.
  - cbn. auto.
  - cbn [receive_all fst snd length] in *.
    apply Forall_cons_1 in Hout as [Hd Hds].
    assert (Hsome : count q <> 0).
    { rewrite contents_length in Hlen. pose proof (wf_count q W). lia. }
    pose proof (Receive_contents q W F m d Hsome Hd) as C.
    destruct (Receive_config q m d) as (Hb & He & Hc & _).
    pose proof (Receive_wf q m d W) as W1.
    pose proof (index_fits_config q _ He Hc F) as F1.
    assert (Hds1 : Forall (outside_buffer (minirtos_Queue_Receive q m d).1.1) ds).
    { eapply Forall_impl; [exact Hds|]. intros x Hx. cbv beta.
      now apply (outside_buffer_config q). }
    assert (Hlen1 : (length ds <= length (contents (minirtos_Queue_Receive q m d).1.1
                                            (minirtos_Queue_Receive q m d).1.2))%nat).
    { rewrite C in Hlen. cbn [length] in Hlen. lia. }
    destruct (IH _ _ W1 F1 Hds1 Hlen1) as [Hok Hgot].
    rewrite Hok, Hgot, C. cbn [firstn]. split; [|reflexivity].
    rewrite Receive_some by assumption. reflexivity.
Qed.

(** X7.  First in, first out, as long as the 16-bit slot index does not wrap:
    on a queue that holds nothing, with every element handed to Send and
    every destination handed to Receive outside the storage of the queue
    (the two areas of each [memcpy] are then disjoint, as [memcpy]
    requires), after Sends that all succeed, as many Receives all
    succeed and deliver, in order, exactly the bytes the Sends were
    handed. *)
Theorem fifo_when_index_fits q m ps ds :
  wf q -> index_fits q -> count q = 0 ->
  Forall (outside_buffer q) ps ->
  (send_all q m ps).2 = true ->
  length ds = length ps -> Forall (outside_buffer q) ds ->
  (receive_all (send_all q m ps).1.1.1 (send_all q m ps).1.1.2 ds).2 = true /\
  (receive_all (send_all q m ps).1.1.1 (send_all q m ps).1.1.2 ds).1.2
  = (send_all q m ps).1.2.
Proof.
  intros W F Hc Hsrc Hok Hlen Hout.
  destruct (send_all_contents ps q m W F Hok) as (W1 & (Hb & He & Hm) & C).
  assert (E0 : contents q m = []).
  { unfold contents. now rewrite Hc. }
  rewrite E0 in C. cbn [app] in C.
  assert (Hl : length (send_all q m ps).1.2 = length ps).
  { clear. revert q m. induction ps as [|p ps IH]; intros q m; [reflexivity|].
    cbn [send_all fst snd length]. now rewrite IH. }
  assert (Hout1 : Forall (outside_buffer (send_all q m ps).1.1.1) ds).
  { eapply Forall_impl; [exact Hout|]. intros x Hx. cbv beta.
    now apply (outside_buffer_config q). }
  destruct (receive_all_contents ds _ (send_all q m ps).1.1.2 W1
              (index_fits_config q _ He Hm F) Hout1) as [Hr Hg].
  { rewrite C. lia. }
  split; [exact Hr|].
  rewrite Hg, C, Hlen, <- Hl. apply firstn_all.
Qed.

(** ** What a call leaves alone *)

(** A Send leaves every byte outside the slot it writes. *)
Lemma Send_memory_outside q m p a :
  a < slot q (tail q) \/ slot q (tail q) + elementSize q <= a ->
  (minirtos_Queue_Send q m p).1.2 a = m a.
Proof.
  intros H. unfold minirtos_Queue_Send.
  destruct (count q =? maxElements q); cbn; [reflexivity|].
  now apply memcpy_outside.
Qed.

(** As long as the slot index does not wrap, a Send leaves the elements
    the queue already holds. *)
Lemma Send_keeps_contents q m p :
  wf q -> index_fits q ->
  firstn (length (contents q m))
    (contents (minirtos_Queue_Send q m p).1.1 (minirtos_Queue_Send q m p).1.2)
  = contents q m.
Proof.
  intros W F. destruct (Z.eq_dec (count q) (maxElements q)) as [E|E].
  - rewrite Send_full by assumption. apply firstn_all.
  - rewrite (Send_contents q W F m p E).
    rewrite firstn_app, firstn_all, Nat.sub_diag. cbn. apply app_nil_r.
Qed.

(** A Receive leaves every byte outside the destination, hence every byte
    of the storage when the destination lies outside it. *)
Lemma Receive_memory_outside q m p a :
  a < p \/ p + elementSize q <= a ->
  (minirtos_Queue_Receive q m p).1.2 a = m a.
Proof.
  intros H. unfold minirtos_Queue_Receive.
  destruct (count q =? 0); cbn; [reflexivity|].
  now apply memcpy_outside.
Qed.

Lemma Receive_keeps_buffer q m p a :
  1 <= elementSize q -> outside_buffer q p ->
  buffer q <= a < buffer q + maxElements q * elementSize q ->
  (minirtos_Queue_Receive q m p).1.2 a = m a.
Proof.
  intros Hs Hout Ha. apply Receive_memory_outside.
  unfold outside_buffer in Hout. lia.
Qed.

(** ** The scenario of the specification *)

(** Capacity three, elements of four bytes: three Sends succeed, the
    fourth fails, the Receive delivers the first element and two elements
    remain. *)
Example word_queue_run :
  let q0 := Examples.word_queue.1 in
  let s3 := send_all q0 Examples.word_memory [2000; 2004; 2008] in
  let s4 := minirtos_Queue_Send s3.1.1.1 s3.1.1.2 2012 in
  let r := minirtos_Queue_Receive s4.1.1 s4.1.2 3000 in
  Examples.word_queue.2 = true /\ minirtos_Queue_Count q0 = 0 /\
  s3.2 = true /\ s4.2 = false /\ r.2 = true /\
  read_bytes r.1.2 3000 4 = [xbb; xbb; xaa; xaa] /\
  minirtos_Queue_Count r.1.1 = 2.
Proof. vm_compute. split_and!; reflexivity. Qed.

(** ** Elements too large for the 16-bit slot index *)

(** C3.  With elements of 32768 bytes and capacity 3 the byte offset of
    slot 2 is [2 * 32768 = 65536], which the 16-bit index turns into 0:
    the third Send writes over slot 0.  All three Sends return true and so
    does the Receive that follows, but the destination then holds the
    third element, not the first. *)
Theorem fifo_lost_on_index_wrap :
  let q0 := Examples.big_queue.1 in
  let s := send_all q0 Examples.big_memory [200000; 240000; 280000] in
  let r := minirtos_Queue_Receive s.1.1.1 s.1.1.2 400000 in
  Examples.big_queue.2 = true /\ s.2 = true /\ r.2 = true /\
  slot_index q0 2 = 0 /\
  read_bytes r.1.2 400000 32768 = read_bytes Examples.big_memory 280000 32768 /\
  read_bytes r.1.2 400000 32768 <> read_bytes Examples.big_memory 200000 32768.
Proof.
  cbv zeta. split_and!.
  - vm_compute; reflexivity.
  - vm_compute; reflexivity.
  - vm_compute; reflexivity.
  - vm_compute; reflexivity.
  - apply (bool_decide_eq_true_1 _). vm_compute. reflexivity.
  - intros H. apply (f_equal (hd x00)) in H. vm_compute in H. discriminate.
Qed.

(** C10.  Same queue after two Sends: it holds two elements, the older one
    in slot 0.  The third Send returns true and changes the bytes of that
    element: the byte at the head slot was [0x11] and is [0x33] after it,
    and the oldest element of the queue is no longer the one sent first. *)
Theorem send_overwrites_oldest_on_index_wrap :
  let q0 := Examples.big_queue.1 in
  let s := send_all q0 Examples.big_memory [200000; 240000] in
  let q2 := s.1.1.1 in
  let m2 := s.1.1.2 in
  let r := minirtos_Queue_Send q2 m2 280000 in
  s.2 = true /\ count q2 = 2 /\ head q2 = 0 /\ tail q2 = 2 /\
  hd [] (contents q2 m2) = read_bytes Examples.big_memory 200000 32768 /\
  r.2 = true /\ head r.1.1 = 0 /\
  slot q2 (tail q2) = slot q2 (head q2) /\
  m2 (slot q2 (head q2)) = x11 /\ r.1.2 (slot q2 (head q2)) = x33 /\
  hd [] (contents r.1.1 r.1.2) <> hd [] (contents q2 m2).
Proof.
  cbv zeta. split_and!.
  - vm_compute; reflexivity.
  - vm_compute; reflexivity.
  - vm_compute; reflexivity.
  - vm_compute; reflexivity.
  - apply (bool_decide_eq_true_1 _). vm_compute. reflexivity.
  - vm_compute; reflexivity.
  - vm_compute; reflexivity.
  - vm_compute; reflexivity.
  - vm_compute; reflexivity.
  - vm_compute; reflexivity.
  - intros H. apply (f_equal (hd x00)) in H. vm_compute in H. discriminate.
Qed.

(** The statement on C2 at work: the count after the five calls of the
    scenario of the specification. *)
Lemma queue_failure_iff_witness :
  0 <= count (run (Examples.word_queue.1, Examples.word_memory) Examples.word_calls).1
    <= maxElements
         (run (Examples.word_queue.1, Examples.word_memory) Examples.word_calls).1.
Proof.
  assert (H4 : is_uint16 4) by (unfold is_uint16; lia).
  assert (H3 : is_uint16 3) by (unfold is_uint16; lia).
  assert (C : minirtos_Queue_Create 1000 Examples.blank 5000 4 3
              = (Examples.word_queue.1, true)) by reflexivity.
  exact (proj1 (queue_failure_iff 1000 Examples.blank 5000 4 3
                  Examples.word_queue.1 Examples.word_memory Examples.word_calls
                  H4 H3 C)).
Defined.

(** ** Creation, capacity and the bytes a queue touches *)

(** X1.  [minirtos_Queue_Create] refuses a null descriptor, a null buffer, a
    zero element size and a zero capacity, and then leaves the descriptor
    as it was.  Otherwise it returns true and the queue is empty and well
    formed, with the buffer and the element size as given and the
    capacity cut to 20. *)
Theorem Create_spec ptrq q0 buf es cap :
  is_uint16 es -> is_uint16 cap ->
  (ptrq = NULL \/ buf = NULL \/ es = 0 \/ cap = 0 ->
   minirtos_Queue_Create ptrq q0 buf es cap = (q0, false)) /\
  (ptrq <> NULL -> buf <> NULL -> es <> 0 -> cap <> 0 ->
   exists q,
     minirtos_Queue_Create ptrq q0 buf es cap = (q, true) /\ wf q /\
     buffer q = buf /\ elementSize q = es /\
     maxElements q = Z.min cap MAX_NO_OF_QUEUE_ELEMENTS /\
     minirtos_Queue_Count q = 0 /\ forall m, contents q m = []).
Proof.
  intros Hes Hcap. split.
  - unfold minirtos_Queue_Create. intros [-> | [-> | [-> | ->]]]; cbn;
      rewrite ?orb_true_r; reflexivity.
  - intros H1 H2 H3 H4.
    assert (E : minirtos_Queue_Create ptrq q0 buf es cap
                = ({| buffer := buf; elementSize := es;
                      maxElements := if cap >? MAX_NO_OF_QUEUE_ELEMENTS
                                     then MAX_NO_OF_QUEUE_ELEMENTS else cap;
                      head := 0; tail := 0; count := 0 |}, true)).
    { unfold minirtos_Queue_Create.
      now rewrite (proj2 (Z.eqb_neq _ _) H1), (proj2 (Z.eqb_neq _ _) H2),
        (proj2 (Z.eqb_neq _ _) H3), (proj2 (Z.eqb_neq _ _) H4). }
    eexists. split; [exact E|].
    split; [exact (Create_wf _ _ _ _ _ _ Hes Hcap E)|].
    cbn [buffer elementSize maxElements]. repeat split.
    unfold MAX_NO_OF_QUEUE_ELEMENTS. destruct (cap >? 20) eqn:G.
    + apply Z.gtb_gt in G. lia.
    + rewrite Z.gtb_ltb in G. apply Z.ltb_ge in G. lia.
Qed.

Lemma Create_spec_witness :
  exists q,
    minirtos_Queue_Create 1000 Examples.blank 5000 4 300 = (q, true) /\ wf q /\
    buffer q = 5000 /\ elementSize q = 4 /\
    maxElements q = Z.min 300 MAX_NO_OF_QUEUE_ELEMENTS /\
    minirtos_Queue_Count q = 0 /\ forall m, contents q m = [].
Proof.
  assert (H4 : is_uint16 4) by (unfold is_uint16; lia).
  assert (H3 : is_uint16 300) by (unfold is_uint16; lia).
  apply (proj2 (Create_spec 1000 Examples.blank 5000 4 300 H4 H3));
    unfold NULL; lia.
Defined.

Lemma Send_count q m p :
  wf q -> count q <> maxElements q ->
  count (minirtos_Queue_Send q m p).1.1 = count q + 1.
Proof.
  intros [Hc Hs Hn Hh Ht] E. unfold MAX_NO_OF_QUEUE_ELEMENTS in Hc.
  rewrite Send_room by assumption. cbn. apply uint16_small. lia.
Qed.

Lemma Receive_count q m p :
  wf q -> count q <> 0 ->
  count (minirtos_Queue_Receive q m p).1.1 = count q - 1.
Proof.
  intros [Hc Hs Hn Hh Ht] E. unfold MAX_NO_OF_QUEUE_ELEMENTS in Hc.
  rewrite Receive_some by assumption. cbn. apply uint16_small. lia.
Qed.

Lemma send_all_ok ps : forall q m,
  wf q ->
  (send_all q m ps).2 = true <-> count q + Z.of_nat (length ps) <= maxElements q.
Proof.
  induction ps as [|p ps IH]; intros q m W.
  - cbn. pose proof (wf_count q W). split; [lia | reflexivity].
  - cbn [send_all fst snd length].
    destruct (Z.eq_dec (count q) (maxElements q)) as [E|E].
    + rewrite Send_full by assumption. cbn. split; [discriminate | lia].
    + rewrite andb_true_iff, (IH _ _ (Send_wf q m p W)).
      rewrite (Send_count q m p W E).
      destruct (Send_config q m p) as (_ & _ & -> & _).
      rewrite Send_room by assumption. cbn [snd]. split; [intros [_ H] | split; [reflexivity|]]; lia.
Qed.

Lemma receive_all_ok ds : forall q m,
  wf q ->
  (receive_all q m ds).2 = true <-> Z.of_nat (length ds) <= count q.
Proof.
  induction ds as [|d ds IH]; intros q m W.
  - cbn. pose proof (wf_count q W). split; [lia | reflexivity].
  - cbn [receive_all fst snd length].
    destruct (Z.eq_dec (count q) 0) as [E|E].
    + rewrite Receive_empty by assumption. cbn. split; [discriminate | lia].
    + rewrite andb_true_iff, (IH _ _ (Receive_wf q m d W)).
      rewrite (Receive_count q m d W E).
      rewrite Receive_some by assumption. cbn [snd]. split; [intros [_ H] | split; [reflexivity|]]; lia.
Qed.

(** X2.  How many calls a queue takes: a series of Sends all return true
    exactly when the elements fit in the free slots, and a series of
    Receives all return true exactly when the queue holds that many
    elements. *)
Theorem series_succeed_iff q m ps ds :
  wf q ->
  ((send_all q m ps).2 = true
   <-> count q + Z.of_nat (length ps) <= maxElements q) /\
  ((receive_all q m ds).2 = true <-> Z.of_nat (length ds) <= count q).
Proof. intros W. split; [now apply send_all_ok | now apply receive_all_ok]. Qed.

Lemma series_succeed_iff_witness :
  ((send_all Examples.word_queue.1 Examples.word_memory [2000; 2004; 2008]).2 = true
   <-> count Examples.word_queue.1 + Z.of_nat 3 <= maxElements Examples.word_queue.1) /\
  ((receive_all Examples.word_queue.1 Examples.word_memory [3000]).2 = true
   <-> Z.of_nat 1 <= count Examples.word_queue.1).
Proof.
  assert (H4 : is_uint16 4) by (unfold is_uint16; lia).
  assert (H3 : is_uint16 3) by (unfold is_uint16; lia).
  assert (W : wf Examples.word_queue.1).
  { apply (Create_wf 1000 Examples.blank 5000 4 3 _ H4 H3). reflexivity. }
  exact (series_succeed_iff Examples.word_queue.1 Examples.word_memory
           [2000; 2004; 2008] [3000] W).
Defined.

(** Every slot Send and Receive address lies inside the buffer of
    [maxElements * elementSize] bytes, whether or not the 16-bit index
    wraps. *)
Lemma slot_bound q i :
  wf q -> 0 <= i < maxElements q ->
  buffer q <= slot q i /\
  slot q i + elementSize q <= buffer q + maxElements q * elementSize q.
Proof.
  intros [Hc Hs Hn Hh Ht] Hi. unfold slot, slot_index, uint16.
  assert (H0 : 0 <= i * elementSize q) by nia.
  pose proof (Z.mod_pos_bound (i * elementSize q) (2 ^ 16) ltac:(lia)) as B.
  pose proof (Z.mod_le (i * elementSize q) (2 ^ 16) H0 ltac:(lia)) as L.
  nia.
Qed.

Lemma wf_tail_range q : wf q -> 0 <= tail q < maxElements q.
Proof.
  intros W. rewrite (wf_tail q W). apply Z.mod_pos_bound.
  pose proof (wf_cap q W). lia.
Qed.

Lemma run_cons st c cs : run st (c :: cs) = run (step st c).1 cs.
Proof. reflexivity. Qed.

(** X3.  Whatever calls are made, the buffer, the element size and the
    capacity of the queue stay as created and the queue stays well
    formed; and a byte of memory that lies outside the buffer and outside
    the destination of every Receive keeps its value. *)
Theorem run_memory_safe cs : forall q m a,
  wf q ->
  a < buffer q \/ buffer q + maxElements q * elementSize q <= a ->
  (forall d, Receive d ∈ cs -> a < d \/ d + elementSize q <= a) ->
  wf (run (q, m) cs).1 /\
  buffer (run (q, m) cs).1 = buffer q /\
  elementSize (run (q, m) cs).1 = elementSize q /\
  maxElements (run (q, m) cs).1 = maxElements q /\
  (run (q, m) cs).2 a = m a.
Proof.
  induction cs as [|c cs IH]; intros q m a W Ha Hd.
  - cbn. auto.
  - rewrite run_cons.
    assert (S : wf (step (q, m) c).1.1 /\
                buffer (step (q, m) c).1.1 = buffer q /\
                elementSize (step (q, m) c).1.1 = elementSize q /\
                maxElements (step (q, m) c).1.1 = maxElements q /\
                (step (q, m) c).1.2 a = m a).
    { destruct c as [p | d]; cbn [step fst snd].
      - split; [now apply Send_wf|].
        destruct (Send_config q m p) as (Hb & He & Hm & _).
        repeat split; try assumption.
        apply Send_memory_outside.
        pose proof (slot_bound q (tail q) W (wf_tail_range q W)). lia.
      - split; [now apply Receive_wf|].
        destruct (Receive_config q m d) as (Hb & He & Hm & _).
        repeat split; try assumption.
        apply Receive_memory_outside. apply Hd. apply elem_of_cons. now left. }
    destruct S as (W1 & Hb & He & Hm & Hmem).
    destruct (step (q, m) c) as [[q1 m1] b]. cbn [fst snd] in *.
    destruct (IH q1 m1 a W1) as (W2 & Hb2 & He2 & Hm2 & Hmem2).
    + rewrite Hb, Hm, He. exact Ha.
    + intros d Hin. rewrite He. apply Hd. apply elem_of_cons. now right.
    + split; [exact W2|]. split_and!; congruence.
Qed.

Lemma run_memory_safe_witness :
  wf (run (Examples.word_queue.1, Examples.word_memory) Examples.word_calls).1 /\
  buffer (run (Examples.word_queue.1, Examples.word_memory) Examples.word_calls).1
  = buffer Examples.word_queue.1 /\
  elementSize (run (Examples.word_queue.1, Examples.word_memory) Examples.word_calls).1
  = elementSize Examples.word_queue.1 /\
  maxElements (run (Examples.word_queue.1, Examples.word_memory) Examples.word_calls).1
  = maxElements Examples.word_queue.1 /\
  (run (Examples.word_queue.1, Examples.word_memory) Examples.word_calls).2 2000
  = Examples.word_memory 2000.
Proof.
  assert (H4 : is_uint16 4) by (unfold is_uint16; lia).
  assert (H3 : is_uint16 3) by (unfold is_uint16; lia).
  assert (W : wf Examples.word_queue.1).
  { apply (Create_wf 1000 Examples.blank 5000 4 3 _ H4 H3). reflexivity. }
  apply (run_memory_safe Examples.word_calls Examples.word_queue.1
           Examples.word_memory 2000 W).
  - cbn. lia.
  - intros d Hd. unfold Examples.word_calls in Hd.
    repeat (apply elem_of_cons in Hd as [Hd | Hd]; [try discriminate|]).
    + injection Hd as ->. cbn. lia.
    + now apply elem_of_nil in Hd.
Defined.

(** X4.  What a Send leaves alone: [head] and the configuration, every byte
    outside the slot at [tail], and -- as long as the byte offset of the
    last slot fits the 16-bit index -- the elements the queue holds. *)
Theorem Send_frame q m p :
  wf q -> index_fits q ->
  head (minirtos_Queue_Send q m p).1.1 = head q /\
  buffer (minirtos_Queue_Send q m p).1.1 = buffer q /\
  elementSize (minirtos_Queue_Send q m p).1.1 = elementSize q /\
  maxElements (minirtos_Queue_Send q m p).1.1 = maxElements q /\
  (forall a, a < slot q (tail q) \/ slot q (tail q) + elementSize q <= a ->
             (minirtos_Queue_Send q m p).1.2 a = m a) /\
  firstn (length (contents q m))
    (contents (minirtos_Queue_Send q m p).1.1 (minirtos_Queue_Send q m p).1.2)
  = contents q m.
Proof.
  intros W F. destruct (Send_config q m p) as (Hb & He & Hm & Hh).
  repeat split; try assumption.
  - intros a Ha. now apply Send_memory_outside.
  - now apply Send_keeps_contents.
Qed.

(** X5.  What a Receive leaves alone: [tail] and the configuration and every
    byte outside the destination; so, with a destination outside the
    buffer, the whole buffer, and the elements that remain are the ones
    that followed the oldest. *)
Theorem Receive_frame q m p :
  wf q -> index_fits q -> outside_buffer q p ->
  tail (minirtos_Queue_Receive q m p).1.1 = tail q /\
  buffer (minirtos_Queue_Receive q m p).1.1 = buffer q /\
  elementSize (minirtos_Queue_Receive q m p).1.1 = elementSize q /\
  maxElements (minirtos_Queue_Receive q m p).1.1 = maxElements q /\
  (forall a, a < p \/ p + elementSize q <= a ->
             (minirtos_Queue_Receive q m p).1.2 a = m a) /\
  (forall a, buffer q <= a < buffer q + maxElements q * elementSize q ->
             (minirtos_Queue_Receive q m p).1.2 a = m a) /\
  contents (minirtos_Queue_Receive q m p).1.1 (minirtos_Queue_Receive q m p).1.2
  = List.tl (contents q m).
Proof.
  intros W F Hout. destruct (Receive_config q m p) as (Hb & He & Hm & Ht).
  repeat split; try assumption.
  - intros a Ha. now apply Receive_memory_outside.
  - intros a Ha. apply Receive_keeps_buffer; [apply W | assumption | assumption].
  - destruct (Z.eq_dec (count q) 0) as [E|E].
    + rewrite Receive_empty by assumption. cbn [fst snd].
      unfold contents. now rewrite E.
    + now rewrite (Receive_contents q W F m p E Hout).
Qed.

(** X6.  [minirtos_Queue_Flush] empties a queue in whatever state it is: the
    queue is well formed and holds nothing, the configuration is kept,
    the next Receive returns false and changes nothing, and the next Send
    returns true. *)
Theorem Flush_empties q m p :
  wf q ->
  wf (minirtos_Queue_Flush q) /\
  minirtos_Queue_Count (minirtos_Queue_Flush q) = 0 /\
  contents (minirtos_Queue_Flush q) m = [] /\
  buffer (minirtos_Queue_Flush q) = buffer q /\
  elementSize (minirtos_Queue_Flush q) = elementSize q /\
  maxElements (minirtos_Queue_Flush q) = maxElements q /\
  minirtos_Queue_Receive (minirtos_Queue_Flush q) m p
  = (minirtos_Queue_Flush q, m, false) /\
  (minirtos_Queue_Send (minirtos_Queue_Flush q) m p).2 = true.
Proof.
  intros [Hc Hs Hn Hh Ht]. split_and!; try reflexivity.
  - constructor; cbn [minirtos_Queue_Flush maxElements elementSize count head tail];
      try assumption; try lia.
    change (0 + 0) with 0. rewrite Z.mod_0_l; lia.
  - rewrite Send_room; [reflexivity|]. cbn. lia.
Qed.

Lemma word_queue_wf : wf Examples.word_queue.1.
Proof.
  assert (H4 : is_uint16 4) by (unfold is_uint16; lia).
  assert (H3 : is_uint16 3) by (unfold is_uint16; lia).
  apply (Create_wf 1000 Examples.blank 5000 4 3 _ H4 H3). reflexivity.
Defined.

Lemma word_queue_fits : index_fits Examples.word_queue.1.
Proof. unfold index_fits. cbn. lia. Defined.

Lemma word_sources_outside :
  Forall (outside_buffer Examples.word_queue.1) [2000; 2004; 2008].
Proof. repeat constructor; unfold outside_buffer; cbn; lia. Defined.

Lemma fifo_when_index_fits_witness :
  (receive_all
     (send_all Examples.word_queue.1 Examples.word_memory [2000; 2004; 2008]).1.1.1
     (send_all Examples.word_queue.1 Examples.word_memory [2000; 2004; 2008]).1.1.2
     [3000; 3004; 3008]).2 = true /\
  (receive_all
     (send_all Examples.word_queue.1 Examples.word_memory [2000; 2004; 2008]).1.1.1
     (send_all Examples.word_queue.1 Examples.word_memory [2000; 2004; 2008]).1.1.2
     [3000; 3004; 3008]).1.2
  = (send_all Examples.word_queue.1 Examples.word_memory [2000; 2004; 2008]).1.2.
Proof.
  apply (fifo_when_index_fits Examples.word_queue.1 Examples.word_memory
           [2000; 2004; 2008] [3000; 3004; 3008] word_queue_wf word_queue_fits).
  - reflexivity.
  - exact word_sources_outside.
  - vm_compute. reflexivity.
  - reflexivity.
  - repeat constructor; unfold outside_buffer; cbn; lia.
Defined.

Lemma Send_frame_witness :
  head (minirtos_Queue_Send Examples.word_queue.1 Examples.word_memory 2000).1.1
  = head Examples.word_queue.1.
Proof.
  exact (proj1 (Send_frame Examples.word_queue.1 Examples.word_memory 2000
                  word_queue_wf word_queue_fits)).
Defined.

(** [Examples.two_sent] and [Examples.word_state] are states the calls
    reach, with their storage where [Examples.word_queue] has it. *)
Lemma two_sent_wf : wf Examples.two_sent.1.
Proof. apply (run_wf _ (_, _)). exact word_queue_wf. Defined.

Lemma two_sent_fits : index_fits Examples.two_sent.1.
Proof. unfold index_fits. vm_compute. reflexivity. Defined.

Lemma two_sent_outside p :
  p = 2008 \/ p = 3000 -> outside_buffer Examples.two_sent.1 p.
Proof. intros [-> | ->]; left; vm_compute; discriminate. Defined.

Lemma word_state_wf : wf Examples.word_state.1.
Proof. apply (run_wf _ (_, _)). exact word_queue_wf. Defined.

(** On [Examples.two_sent], which holds two elements and has [tail] on
    2, a Receive returns true and moves [head]; [tail] is still 2, and
    what remains is the element that followed the oldest. *)
Lemma Receive_frame_witness :
  minirtos_Queue_Count Examples.two_sent.1 = 2 /\
  tail Examples.two_sent.1 = 2 /\
  (minirtos_Queue_Receive Examples.two_sent.1 Examples.two_sent.2 3000).2 = true /\
  head (minirtos_Queue_Receive Examples.two_sent.1 Examples.two_sent.2 3000).1.1 = 1 /\
  tail (minirtos_Queue_Receive Examples.two_sent.1 Examples.two_sent.2 3000).1.1
  = tail Examples.two_sent.1 /\
  (forall a, buffer Examples.two_sent.1 <= a
             < buffer Examples.two_sent.1
               + maxElements Examples.two_sent.1 * elementSize Examples.two_sent.1 ->
     (minirtos_Queue_Receive Examples.two_sent.1 Examples.two_sent.2 3000).1.2 a
     = Examples.two_sent.2 a) /\
  contents (minirtos_Queue_Receive Examples.two_sent.1 Examples.two_sent.2 3000).1.1
    (minirtos_Queue_Receive Examples.two_sent.1 Examples.two_sent.2 3000).1.2
  = List.tl (contents Examples.two_sent.1 Examples.two_sent.2).
Proof.
  destruct (Receive_frame Examples.two_sent.1 Examples.two_sent.2 3000
              two_sent_wf two_sent_fits (two_sent_outside 3000 (or_intror eq_refl)))
    as (Ht & _ & _ & _ & _ & Hb & Hc).
  split_and!.
  - vm_compute. reflexivity.
  - vm_compute. reflexivity.
  - vm_compute. reflexivity.
  - vm_compute. reflexivity.
  - exact Ht.
  - exact Hb.
  - exact Hc.
Defined.

(** On [Examples.word_state], which holds two elements with [head] on 1:
    after the flush it holds none, [head] is 0, a Receive returns false
    and a Send returns true. *)
Lemma Flush_empties_witness :
  minirtos_Queue_Count Examples.word_state.1 = 2 /\
  head Examples.word_state.1 = 1 /\
  head (minirtos_Queue_Flush Examples.word_state.1) = 0 /\
  wf (minirtos_Queue_Flush Examples.word_state.1) /\
  minirtos_Queue_Count (minirtos_Queue_Flush Examples.word_state.1) = 0 /\
  contents (minirtos_Queue_Flush Examples.word_state.1) Examples.word_state.2 = [] /\
  minirtos_Queue_Receive (minirtos_Queue_Flush Examples.word_state.1)
    Examples.word_state.2 3000
  = (minirtos_Queue_Flush Examples.word_state.1, Examples.word_state.2, false) /\
  (minirtos_Queue_Send (minirtos_Queue_Flush Examples.word_state.1)
     Examples.word_state.2 3000).2 = true.
Proof.
  destruct (Flush_empties Examples.word_state.1 Examples.word_state.2 3000
              word_state_wf) as (Hw & Hn & Hc & _ & _ & _ & Hr & Hs).
  split_and!.
  - vm_compute. reflexivity.
  - vm_compute. reflexivity.
  - vm_compute. reflexivity.
  - exact Hw.
  - exact Hn.
  - exact Hc.
  - exact Hr.
  - exact Hs.
Defined.

(** X8.  One call on the elements of the queue, as long as the byte offset of
    the last slot fits the 16-bit index and the element or destination
    handed to the call lies outside the storage of the queue (the two
    areas of the [memcpy] are then disjoint, as [memcpy] requires): a
    Send on a queue that is not full adds the element it is handed after
    the ones the queue holds, and a Receive on a queue that is not empty
    delivers the oldest element and leaves the others in their order. *)
Theorem contents_step q m p :
  wf q -> index_fits q -> outside_buffer q p ->
  (count q <> maxElements q ->
   contents (minirtos_Queue_Send q m p).1.1 (minirtos_Queue_Send q m p).1.2
   = contents q m ++ [read_bytes m p (elementSize q)]) /\
  (count q <> 0 ->
   contents q m
   = read_bytes (minirtos_Queue_Receive q m p).1.2 p (elementSize q)
     :: contents (minirtos_Queue_Receive q m p).1.1
          (minirtos_Queue_Receive q m p).1.2).
Proof.
  intros W F O. split.
  - now apply Send_contents.
  - intros E. now apply Receive_contents.
Qed.

(** On [Examples.two_sent], which holds two elements: a third Send adds
    its element after them, and a Receive delivers the oldest. *)
Lemma contents_step_witness :
  contents
    (minirtos_Queue_Send Examples.two_sent.1 Examples.two_sent.2 2008).1.1
    (minirtos_Queue_Send Examples.two_sent.1 Examples.two_sent.2 2008).1.2
  = contents Examples.two_sent.1 Examples.two_sent.2
    ++ [read_bytes Examples.two_sent.2 2008 (elementSize Examples.two_sent.1)] /\
  contents Examples.two_sent.1 Examples.two_sent.2
  = read_bytes (minirtos_Queue_Receive Examples.two_sent.1 Examples.two_sent.2 3000).1.2
      3000 (elementSize Examples.two_sent.1)
    :: contents (minirtos_Queue_Receive Examples.two_sent.1 Examples.two_sent.2 3000).1.1
         (minirtos_Queue_Receive Examples.two_sent.1 Examples.two_sent.2 3000).1.2.
Proof.
  split.
  - apply (proj1 (contents_step Examples.two_sent.1 Examples.two_sent.2 2008
                    two_sent_wf two_sent_fits (two_sent_outside 2008 (or_introl eq_refl)))).
    vm_compute. discriminate.
  - apply (proj2 (contents_step Examples.two_sent.1 Examples.two_sent.2 3000
                    two_sent_wf two_sent_fits
                    (two_sent_outside 3000 (or_intror eq_refl)))).
    vm_compute. discriminate.
Defined.

(** X9.  Round trip on an empty queue, for every element size and capacity
    (the 16-bit index may wrap: the slot written is the slot read).  On
    a queue that holds nothing, with the element and the destination
    outside the buffer as [memcpy] requires, a Send followed by a Receive
    both return true, the destination then holds the bytes the Send was
    handed, and the queue holds nothing again. *)
Theorem round_trip_on_empty q m p d :
  wf q -> count q = 0 -> outside_buffer q p -> outside_buffer q d ->
  (minirtos_Queue_Send q m p).2 = true /\
  (minirtos_Queue_Receive (minirtos_Queue_Send q m p).1.1
     (minirtos_Queue_Send q m p).1.2 d).2 = true /\
  read_bytes
    (minirtos_Queue_Receive (minirtos_Queue_Send q m p).1.1
       (minirtos_Queue_Send q m p).1.2 d).1.2 d (elementSize q)
  = read_bytes m p (elementSize q) /\
  count (minirtos_Queue_Receive (minirtos_Queue_Send q m p).1.1
           (minirtos_Queue_Send q m p).1.2 d).1.1 = 0.
Proof.
  intros W Hc Hp Hd. pose proof W as [Hcap Hs Hn Hh Ht].
  unfold MAX_NO_OF_QUEUE_ELEMENTS in Hcap.
  assert (E : count q <> maxElements q) by lia.
  assert (Htail : tail q = head q).
  { rewrite Ht, Hc, Z.add_0_r. apply Z.mod_small. lia. }
  rewrite Send_room by assumption. cbn [fst snd].
  rewrite Receive_some by (cbn; rewrite Hc; discriminate).
  cbn [fst snd buffer elementSize maxElements head tail count].
  split_and!; try reflexivity.
  - rewrite Htail. rewrite read_bytes_memcpy.
    apply read_bytes_memcpy.
  - rewrite Hc. reflexivity.
Qed.

Lemma round_trip_on_empty_witness :
  (minirtos_Queue_Send Examples.word_queue.1 Examples.word_memory 2000).2 = true.
Proof.
  assert (O1 : outside_buffer Examples.word_queue.1 2000)
    by (unfold outside_buffer; cbn; lia).
  assert (O2 : outside_buffer Examples.word_queue.1 3000)
    by (unfold outside_buffer; cbn; lia).
  exact (proj1 (round_trip_on_empty Examples.word_queue.1 Examples.word_memory
                  2000 3000 word_queue_wf eq_refl O1 O2)).
Defined.
End QueueFacts.

(** * Properties of the scheduler *)

Module SchedFacts.
Import Sched.

Lemma uint8_small x : 0 <= x < 2 ^ 8 -> uint8 x = x.
Proof. intros H. unfold uint8. now apply Z.mod_small. Qed.

Lemma uint32_small x : 0 <= x < 2 ^ 32 -> uint32 x = x.
Proof. intros H. unfold uint32. now apply Z.mod_small. Qed.

(** Reducing to 64 bits and then to 32 is reducing to 32. *)
Lemma uint32_uintmax x : uint32 (uintmax x) = uint32 x.
Proof.
  unfold uint32, uintmax.
  apply Z.mod_mod_divide. exists (2 ^ 32). reflexivity.
Qed.

(** ** Loads and stores *)

Lemma load_Some h p t : h !! p = Some t -> load h p = Done t.
Proof. intros H. unfold load. now rewrite H. Qed.

Lemma store_Some h p f t : h !! p = Some t -> store h p f = Done (<[p := f t]> h).
Proof. intros H. unfold store. now rewrite H. Qed.

Lemma load_Done h p t : load h p = Done t -> h !! p = Some t.
Proof. unfold load. destruct (h !! p); [now intros [= ->] | discriminate]. Qed.

Lemma store_Done h p f h' :
  store h p f = Done h' -> exists t, h !! p = Some t /\ h' = <[p := f t]> h.
Proof.
  unfold store. destruct (h !! p) as [t|]; [|discriminate].
  intros [= <-]. eauto.
Qed.

Lemma bind_Done {A B} (o : outcome A) (f : A -> outcome B) b :
  o ≫= f = Done b -> exists a, o = Done a /\ f a = Done b.
Proof. destruct o as [a| |]; cbn; [eauto | discriminate | discriminate]. Qed.

(** ** [minirtos_ModifyTask] *)

Lemma ModifyTask_refused s p iv st :
  glbInitialized s = 0 \/ p = NULL \/ TASK_ONE_SHOT_NOW < st ->
  minirtos_ModifyTask s p iv st = Done (s, false).
Proof.
  unfold minirtos_ModifyTask. intros [H | [H | H]].
  - now rewrite H.
  - rewrite H. cbn. now rewrite orb_true_r.
  - destruct ((glbInitialized s =? 0) || (p =? NULL)); [reflexivity|].
    now rewrite (proj2 (Z.gtb_gt _ _)) by lia.
Qed.

Lemma ModifyTask_accepted s p iv st t :
  glbInitialized s <> 0 -> p <> NULL -> st <= TASK_ONE_SHOT_NOW ->
  heap s !! p = Some t ->
  minirtos_ModifyTask s p iv st
  = Done (set_heap s (<[p := modified (glbSysTicks s) iv st t]> (heap s)), true).
Proof.
  intros Hi Hp Hst Ht. unfold minirtos_ModifyTask.
  rewrite (proj2 (Z.eqb_neq _ _) Hi), (proj2 (Z.eqb_neq _ _) Hp). cbn [orb].
  destruct (st >? TASK_ONE_SHOT_NOW) eqn:E; [apply Z.gtb_gt in E; lia|].
  rewrite (store_Some _ _ _ _ Ht). cbn [mbind outcome_bind].
  rewrite (store_Some _ _ _ _ (lookup_insert_eq _ _ _)). cbn [mbind outcome_bind].
  rewrite insert_insert_eq.
  destruct ((st =? TASK_SCHEDULED) || (st =? TASK_ONE_SHOT)) eqn:K;
    rewrite (store_Some _ _ _ _ (lookup_insert_eq _ _ _)); cbn [mbind outcome_bind];
    rewrite insert_insert_eq; unfold modified; rewrite K; reflexivity.
Qed.

(** C9, as the code has it.  [minirtos_ModifyTask] returns false, and
    changes nothing, when the scheduler is not initialised, when the
    reference is [NULL], and when the value of the requested status is
    above [TASK_ONE_SHOT_NOW] (which rejects [TASK_RUNNING],
    [TASK_NOT_FOUND] and every other such value): this for every state,
    every reference and every period, whatever the reference points to.
    For every status value from 0 to 5 -- the five named ones and the
    unnamed 4 -- the call on a descriptor returns true, stores the period
    and the status as given, and sets the planned tick to [now + period],
    reduced to the 32 bits of the field, when the status is
    [TASK_SCHEDULED] or [TASK_ONE_SHOT], and to 0 otherwise. *)
Theorem ModifyTask_by_range s p iv st :
  (glbInitialized s = 0 \/ p = NULL \/ TASK_ONE_SHOT_NOW < st ->
   minirtos_ModifyTask s p iv st = Done (s, false)) /\
  (forall t,
   heap s !! p = Some t -> 0 <= st ->
   glbInitialized s <> 0 -> p <> NULL -> st <= TASK_ONE_SHOT_NOW ->
   exists s',
     minirtos_ModifyTask s p iv st = Done (s', true) /\
     exists t', heap s' !! p = Some t' /\
       taskInterval t' = iv /\ taskStatus t' = st /\
       plannedTask t' = (if (st =? TASK_SCHEDULED) || (st =? TASK_ONE_SHOT)
                         then uint32 (glbSysTicks s + iv) else 0) /\
       taskPointer t' = taskPointer t /\ gptrTaskNext t' = gptrTaskNext t).
Proof.
  split; [apply ModifyTask_refused|].
  intros t Ht Hst Hi Hp Hle. eexists.
  split; [apply (ModifyTask_accepted s p iv st t); assumption|].
  cbn [heap set_heap]. eexists. split; [apply lookup_insert_eq|].
  unfold modified. cbn. rewrite uint32_uintmax. auto.
Qed.

(** ** [minirtos_AddTask] *)

Lemma fill_task_Some s p cb iv st t :
  heap s !! p = Some t ->
  fill_task s p cb iv st
  = Done (set_count (set_heap s (<[p := filled (glbSysTicks s) cb iv st t]> (heap s)))
                    (uint8 (glbNumberOfTasks s + 1))).
Proof.
  intros Ht. unfold fill_task, filled.
  destruct ((st =? TASK_RUN_NOW) || (st =? TASK_ONE_SHOT_NOW)).
  - rewrite (store_Some _ _ _ _ Ht). cbn [mbind outcome_bind].
    rewrite (store_Some _ _ _ _ (lookup_insert_eq _ _ _)). cbn [mbind outcome_bind].
    rewrite insert_insert_eq.
    rewrite (store_Some _ _ _ _ (lookup_insert_eq _ _ _)). cbn [mbind outcome_bind].
    rewrite insert_insert_eq. reflexivity.
  - rewrite (store_Some _ _ _ _ Ht). cbn [mbind outcome_bind].
    rewrite (store_Some _ _ _ _ (lookup_insert_eq _ _ _)). cbn [mbind outcome_bind].
    rewrite insert_insert_eq.
    rewrite (store_Some _ _ _ _ (lookup_insert_eq _ _ _)). cbn [mbind outcome_bind].
    rewrite insert_insert_eq.
    rewrite (store_Some _ _ _ _ (lookup_insert_eq _ _ _)). cbn [mbind outcome_bind].
    rewrite insert_insert_eq. reflexivity.
Qed.

Lemma fill_task_Done s p cb iv st s' :
  fill_task s p cb iv st = Done s' ->
  exists t, heap s !! p = Some t /\
    s' = set_count (set_heap s (<[p := filled (glbSysTicks s) cb iv st t]> (heap s)))
                   (uint8 (glbNumberOfTasks s + 1)).
Proof.
  intros H. destruct (heap s !! p) as [t|] eqn:Ht.
  - rewrite (fill_task_Some _ _ _ _ _ _ Ht) in H. injection H as <-. eauto.
  - exfalso. unfold fill_task, store in H. rewrite Ht in H.
    destruct ((st =? TASK_RUN_NOW) || (st =? TASK_ONE_SHOT_NOW)); discriminate.
Qed.

Lemma link_task_keeps s fuel p s1 :
  link_task fuel s p = Done s1 ->
  glbSysTicks s1 = glbSysTicks s /\ glbNumberOfTasks s1 = glbNumberOfTasks s /\
  glbInitialized s1 = glbInitialized s /\
  forall a, taskStatus <$> heap s1 !! a = taskStatus <$> heap s !! a.
Proof.
  unfold link_task. destruct (negb (gptrTaskFirst s =? NULL)).
  - intros H. apply bind_Done in H as (q & _ & H).
    apply bind_Done in H as (h1 & H1 & H).
    apply bind_Done in H as (h2 & H2 & H). injection H as <-.
    apply store_Done in H1 as (t1 & L1 & ->).
    apply store_Done in H2 as (t2 & L2 & ->).
    cbn. repeat split. intros a.
    destruct (decide (p = a)) as [->|Hpa].
    + rewrite lookup_insert_eq. cbn.
      destruct (decide (q = a)) as [->|Hqa].
      * rewrite lookup_insert_eq in L2. injection L2 as <-. now rewrite L1.
      * rewrite lookup_insert_ne in L2 by assumption. now rewrite L2.
    + rewrite lookup_insert_ne by assumption.
      destruct (decide (q = a)) as [->|Hqa].
      * rewrite lookup_insert_eq. now rewrite L1.
      * now rewrite lookup_insert_ne.
  - cbn. intros H. apply bind_Done in H as (h1 & H1 & H). injection H as <-.
    apply store_Done in H1 as (t1 & L1 & ->).
    cbn. repeat split. intros a.
    destruct (decide (p = a)) as [->|Hpa].
    + rewrite lookup_insert_eq. now rewrite L1.
    + now rewrite lookup_insert_ne.
Qed.

(** A call of [minirtos_AddTask] that returns true went through both
    blocks, and the descriptor holds what [fill_task] leaves. *)
Lemma AddTask_true fuel scratch s p cb iv st r :
  minirtos_AddTask fuel scratch s p cb iv st = Done r -> ret r = true ->
  glbInitialized s <> 0 /\ glbNumberOfTasks s <> MAX_TASKS_NUMBER /\
  cb <> NULL /\ p <> NULL /\ freed r = [] /\
  exists s1 t,
    link_task fuel s p = Done s1 /\ heap s1 !! p = Some t /\
    after r = set_count
                (set_heap s1 (<[p := filled (glbSysTicks s) cb (checked_interval iv)
                                        (checked_status st) t]> (heap s1)))
                (uint8 (glbNumberOfTasks s + 1)).
Proof.
  unfold minirtos_AddTask.
  destruct (glbInitialized s =? 0) eqn:E1; [intros [= <-]; discriminate|].
  destruct (glbNumberOfTasks s =? MAX_TASKS_NUMBER) eqn:E2; [intros [= <-]; discriminate|].
  destruct (cb =? NULL) eqn:E3; [intros [= <-]; discriminate|].
  destruct (p =? NULL) eqn:E4; [intros [= <-]; discriminate|].
  cbn [orb negb]. intros H _.
  apply Z.eqb_neq in E1, E2, E3, E4.
  apply bind_Done in H as (s1 & H1 & H).
  apply bind_Done in H as (s2 & H2 & H). injection H as <-.
  apply fill_task_Done in H2 as (t & Ht & ->).
  destruct (link_task_keeps _ _ _ _ H1) as (K1 & K2 & _).
  rewrite K1, K2. cbn [after freed]. eauto 10.
Qed.

Example one_task_state :
  Examples.one_task = Done (mkResult Examples.one_state true []).
Proof. vm_compute. reflexivity. Qed.

(** C9 as stated fails.  Status value 4 names no enumerator of
    [Task_Status_e], and [minirtos_ModifyTask] accepts it: the call
    returns true and the descriptor holds status 4. *)
Lemma ModifyTask_accepts_unnamed_status :
  ~ enumerated 4 /\
  exists s', minirtos_ModifyTask Examples.one_state 10 50 4 = Done (s', true) /\
             taskStatus <$> heap s' !! 10 = Some 4.
Proof.
  split.
  - unfold enumerated, TASK_PAUSE, TASK_SCHEDULED, TASK_ONE_SHOT, TASK_RUN_NOW,
      TASK_ONE_SHOT_NOW, TASK_RUNNING, TASK_NOT_FOUND. lia.
  - eexists. split; vm_compute; reflexivity.
Qed.

(** The statement on C9 at work.  Status [TASK_RUNNING] is refused on the
    state with one task; a [NULL] reference is refused, where there is
    no descriptor at all; a call before [minirtos_Init] is refused; and
    status [TASK_ONE_SHOT] is stored with the period 20 and the planned
    tick [0 + 20]. *)
Lemma ModifyTask_by_range_witness :
  minirtos_ModifyTask Examples.one_state 10 20 TASK_RUNNING
    = Done (Examples.one_state, false) /\
  minirtos_ModifyTask Examples.one_state NULL 20 TASK_SCHEDULED
    = Done (Examples.one_state, false) /\
  minirtos_ModifyTask (boot 0 Examples.three_objects) 10 20 TASK_SCHEDULED
    = Done (boot 0 Examples.three_objects, false) /\
  exists s',
    minirtos_ModifyTask Examples.one_state 10 20 TASK_ONE_SHOT = Done (s', true) /\
    exists t', heap s' !! 10 = Some t' /\
      taskInterval t' = 20 /\ taskStatus t' = TASK_ONE_SHOT /\
      plannedTask t' = uint32 (0 + 20) /\
      taskPointer t' = 7 /\ gptrTaskNext t' = 10.
Proof.
  assert (L : heap Examples.one_state !! 10
              = Some (mkTask 7 50 50 TASK_SCHEDULED 10)) by reflexivity.
  split_and!.
  - apply (proj1 (ModifyTask_by_range Examples.one_state 10 20 TASK_RUNNING)).
    right. right. unfold TASK_RUNNING, TASK_ONE_SHOT_NOW. lia.
  - apply (proj1 (ModifyTask_by_range Examples.one_state NULL 20 TASK_SCHEDULED)).
    right. left. reflexivity.
  - apply (proj1 (ModifyTask_by_range (boot 0 Examples.three_objects) 10 20
                    TASK_SCHEDULED)).
    left. reflexivity.
  - apply (proj2 (ModifyTask_by_range Examples.one_state 10 20 TASK_ONE_SHOT) _ L).
    + unfold TASK_ONE_SHOT. lia.
    + cbn. lia.
    + unfold NULL. lia.
    + unfold TASK_ONE_SHOT, TASK_ONE_SHOT_NOW. lia.
Defined.

(** What the interval test keeps: nothing is below zero in an unsigned
    type, so only the upper bound is ever checked. *)
Lemma checked_interval_uint32 iv :
  is_uint32 iv ->
  checked_interval iv = if iv >? MAX_TASK_INTERVAL then DEFAULT_TASK_INTERVAL else iv.
Proof.
  unfold is_uint32, checked_interval. intros H.
  destruct (iv <? 0) eqn:E; [apply Z.ltb_lt in E; lia | reflexivity].
Qed.

(** C8, as the code has it.  In every call of [minirtos_AddTask] that
    returns true, a period above 3600000 is stored as 100 and every other
    period, 0 included, is stored as given; and whether the call returns
    true does not depend on the period. *)
Theorem AddTask_period fuel scratch s p cb iv st r :
  is_uint32 iv ->
  minirtos_AddTask fuel scratch s p cb iv st = Done r -> ret r = true ->
  (exists t, heap (after r) !! p = Some t /\
             taskInterval t
             = if iv >? MAX_TASK_INTERVAL then DEFAULT_TASK_INTERVAL else iv) /\
  (forall iv', exists r',
      minirtos_AddTask fuel scratch s p cb iv' st = Done r' /\ ret r' = true).
Proof.
  intros Hiv H Hr.
  destruct (AddTask_true _ _ _ _ _ _ _ _ H Hr)
    as (Hi & Hn & Hcb & Hp & _ & s1 & t & Hl & Ht & Ha).
  split.
  - rewrite Ha. cbn [heap set_count set_heap]. eexists.
    split; [apply lookup_insert_eq|].
    rewrite <- checked_interval_uint32 by assumption.
    unfold filled. now destruct (_ || _).
  - intros iv'. unfold minirtos_AddTask.
    rewrite (proj2 (Z.eqb_neq _ _) Hi), (proj2 (Z.eqb_neq _ _) Hn),
      (proj2 (Z.eqb_neq _ _) Hcb), (proj2 (Z.eqb_neq _ _) Hp).
    cbn [orb negb]. rewrite Hl. cbn [mbind outcome_bind].
    rewrite (fill_task_Some _ _ _ _ _ _ Ht). cbn [mbind outcome_bind].
    eexists. split; reflexivity.
Qed.

(** The statement on C8 at work: the task added with a period of 50
    holds 50, and the call returns true with any other period. *)
Lemma AddTask_period_witness :
  (exists t, heap Examples.one_state !! 10 = Some t /\ taskInterval t = 50) /\
  (forall iv', exists r',
      minirtos_AddTask 255 901 Examples.ready 10 7 iv' TASK_SCHEDULED = Done r' /\
      ret r' = true).
Proof.
  assert (H : is_uint32 50) by (unfold is_uint32; lia).
  assert (E : minirtos_AddTask 255 901 Examples.ready 10 7 50 TASK_SCHEDULED
              = Done (mkResult Examples.one_state true []))
    by (vm_compute; reflexivity).
  exact (AddTask_period 255 901 Examples.ready 10 7 50 TASK_SCHEDULED
           (mkResult Examples.one_state true []) H E eq_refl).
Defined.

(** C8 as stated fails.  A period of 0, which is not in [1, 3600000],
    is stored as 0 and not as the default 100. *)
Lemma AddTask_stores_period_zero :
  exists r,
    minirtos_AddTask 255 901 Examples.ready 10 7 0 TASK_SCHEDULED = Done r /\
    ret r = true /\
    taskInterval <$> heap (after r) !! 10 = Some 0 /\
    taskInterval <$> heap (after r) !! 10 <> Some DEFAULT_TASK_INTERVAL.
Proof.
  eexists. split; [vm_compute; reflexivity|].
  split; [reflexivity|]. split; [reflexivity|]. vm_compute. discriminate.
Qed.

(** The two cases of the status and of the planned tick.  When the
    requested status is [TASK_RUN_NOW] or [TASK_ONE_SHOT_NOW] the planned
    tick is the current tick and the status field is not written: the
    descriptor keeps the status it held before the call. *)
Lemma AddTask_now_status fuel scratch s p cb iv st r t0 :
  minirtos_AddTask fuel scratch s p cb iv st = Done r -> ret r = true ->
  st = TASK_RUN_NOW \/ st = TASK_ONE_SHOT_NOW ->
  heap s !! p = Some t0 ->
  exists t, heap (after r) !! p = Some t /\
            taskStatus t = taskStatus t0 /\
            plannedTask t = uint32 (glbSysTicks s).
Proof.
  intros H Hr Hst H0.
  destruct (AddTask_true _ _ _ _ _ _ _ _ H Hr)
    as (_ & _ & _ & _ & _ & s1 & t & Hl & Ht & Ha).
  destruct (link_task_keeps _ _ _ _ Hl) as (_ & _ & _ & K).
  specialize (K p). rewrite Ht, H0 in K. injection K as K.
  rewrite Ha. cbn [heap set_count set_heap]. eexists.
  split; [apply lookup_insert_eq|].
  unfold filled. destruct Hst as [-> | ->]; cbn; auto.
Qed.

(** For every other requested status the status stored is the requested
    one, or [TASK_SCHEDULED] when the request is not one of the five
    statuses the [switch] lets through, and the planned tick is
    [now + period] with the period the interval test kept, reduced to the
    32 bits of the field. *)
Lemma AddTask_later_status fuel scratch s p cb iv st r :
  minirtos_AddTask fuel scratch s p cb iv st = Done r -> ret r = true ->
  st <> TASK_RUN_NOW -> st <> TASK_ONE_SHOT_NOW ->
  exists t, heap (after r) !! p = Some t /\
            taskStatus t = checked_status st /\
            plannedTask t = uint32 (glbSysTicks s + checked_interval iv).
Proof.
  intros H Hr H3 H5.
  destruct (AddTask_true _ _ _ _ _ _ _ _ H Hr)
    as (_ & _ & _ & _ & _ & s1 & t & Hl & Ht & Ha).
  rewrite Ha. cbn [heap set_count set_heap]. eexists.
  split; [apply lookup_insert_eq|].
  assert (E : (checked_status st =? TASK_RUN_NOW)
              || (checked_status st =? TASK_ONE_SHOT_NOW) = false).
  { unfold checked_status.
    repeat match goal with
           | |- context [if ?x =? ?y then _ else _] =>
               destruct (Z.eqb_spec x y)
           end; subst; try reflexivity; contradiction. }
  unfold filled. rewrite E. cbn. now rewrite uint32_uintmax.
Qed.

(** C5.  A descriptor in zeroed storage (status [TASK_PAUSE]) is added at
    tick 7 with the request [TASK_RUN_NOW]: the call returns true and the
    planned tick is 7, but the status in the descriptor is still
    [TASK_PAUSE], not the requested [TASK_RUN_NOW].  The next iteration of
    the dispatch loop therefore calls nothing. *)
Theorem AddTask_run_now_not_stored :
  exists r,
    minirtos_AddTask 255 901 (set_ticks Examples.ready 7) 10 7 50 TASK_RUN_NOW = Done r /\
    ret r = true /\
    heap (after r) !! 10
    = Some {| taskPointer := 7; taskInterval := 50; plannedTask := 7;
              taskStatus := TASK_PAUSE; gptrTaskNext := 10 |} /\
    (Scheduler_iteration Examples.idle (after r) ≫= fun x => Done x.2) = Done [].
Proof.
  eexists. split; [vm_compute; reflexivity|].
  split; [reflexivity|]. split; vm_compute; reflexivity.
Qed.

(** ** The dispatch loop *)

(** The test [elapsedTime <= ZERO] on a 32-bit planned tick and the 64-bit
    counter: the task is judged due exactly when the counter has reached
    the planned tick and is not more than [2^63] ahead of it. *)
Lemma due_iff planned ticks :
  is_uint32 planned -> is_uintmax ticks ->
  due planned ticks = true <-> planned <= ticks <= planned + 2 ^ 63.
Proof.
  unfold is_uint32, is_uintmax, due, elapsedTime, intmax, uintmax, ZERO.
  intros Hp Ht.
  destruct (Z_lt_le_dec (planned - ticks) 0) as [Hneg | Hpos].
  - replace ((planned - ticks) mod 2 ^ 64) with (planned - ticks + 2 ^ 64).
    2:{ apply Z.mod_unique with (q := -1); lia. }
    destruct (planned - ticks + 2 ^ 64 <? 2 ^ 63) eqn:E.
    + apply Z.ltb_lt in E. rewrite Z.leb_le. lia.
    + apply Z.ltb_ge in E. rewrite Z.leb_le. lia.
  - rewrite (Z.mod_small (planned - ticks)) by lia.
    destruct (planned - ticks <? 2 ^ 63) eqn:E.
    + rewrite Z.leb_le. lia.
    + apply Z.ltb_ge in E. lia.
Qed.

(** X21.  Once the counter has left the 32-bit range (and for the next [2^63]
    ticks) every planned tick is judged reached. *)
Lemma due_beyond_32_bits planned ticks :
  is_uint32 planned -> 2 ^ 32 <= ticks <= 2 ^ 63 -> due planned ticks = true.
Proof.
  intros Hp Ht. apply due_iff; unfold is_uint32, is_uintmax in *; lia.
Qed.

(** Which statuses have the bit the loop tests with
    [taskStatus & TASK_ONE_SHOT]. *)
Lemma one_shot_bit :
  Z.land TASK_SCHEDULED TASK_ONE_SHOT = 0 /\
  Z.land TASK_ONE_SHOT TASK_ONE_SHOT <> 0 /\
  Z.land TASK_RUN_NOW TASK_ONE_SHOT <> 0 /\
  Z.land TASK_ONE_SHOT_NOW TASK_ONE_SHOT = 0.
Proof. vm_compute. repeat split; discriminate. Qed.

Section DispatchFacts.

Variable body : Z -> state -> state.

Lemma dispatch_not_due s t :
  due (plannedTask t) (glbSysTicks s) = false -> dispatch body s t = Done (s, []).
Proof. intros H. unfold dispatch. now rewrite H. Qed.

(** A due task whose status has the bit: the body runs, then the status
    of the task under the cursor becomes [TASK_PAUSE]. *)
Lemma dispatch_pauses s t t1 :
  due (plannedTask t) (glbSysTicks s) = true ->
  Z.land (taskStatus t) TASK_ONE_SHOT <> 0 -> taskPointer t <> NULL ->
  heap (body (taskPointer t) s) !! gptrTaskSchedule (body (taskPointer t) s) = Some t1 ->
  dispatch body s t
  = Done (set_heap (body (taskPointer t) s)
            (<[gptrTaskSchedule (body (taskPointer t) s) := with_status TASK_PAUSE t1]>
               (heap (body (taskPointer t) s))),
          [taskPointer t]).
Proof.
  intros Hd Hb Hf H1. unfold dispatch.
  rewrite Hd, (proj2 (Z.eqb_neq _ _) Hb), (proj2 (Z.eqb_neq _ _) Hf). cbn [negb].
  now rewrite (store_Some _ _ _ _ H1).
Qed.

(** A due task whose status lacks the bit: the planned tick becomes
    [now + period], reduced to 32 bits, then the body runs; the status is
    not written. *)
Lemma dispatch_rearms s t :
  due (plannedTask t) (glbSysTicks s) = true ->
  Z.land (taskStatus t) TASK_ONE_SHOT = 0 -> taskPointer t <> NULL ->
  heap s !! gptrTaskSchedule s = Some t ->
  dispatch body s t
  = Done (body (taskPointer t)
            (set_heap s (<[gptrTaskSchedule s
                           := with_planned (uint32 (glbSysTicks s + taskInterval t)) t]>
                           (heap s))),
          [taskPointer t]).
Proof.
  intros Hd Hb Hf H1. unfold dispatch.
  rewrite Hd, (proj2 (Z.eqb_eq _ _) Hb), (proj2 (Z.eqb_neq _ _) Hf). cbn [negb].
  rewrite (store_Some _ _ _ _ H1). cbn [mbind outcome_bind].
  now rewrite uint32_uintmax.
Qed.

(** A paused task is passed over, due or not. *)
Lemma iteration_paused s t :
  gptrTaskSchedule s <> NULL -> glbNumberOfTasks s <> 0 ->
  heap s !! gptrTaskSchedule s = Some t -> taskStatus t = TASK_PAUSE ->
  Scheduler_iteration body s = Done (set_schedule s (gptrTaskNext t), []).
Proof.
  intros Hc Hn Ht Hs. unfold Scheduler_iteration.
  rewrite (proj2 (Z.eqb_neq _ _) Hc), (proj2 (Z.eqb_neq _ _) Hn). cbn [negb andb].
  rewrite (load_Some _ _ _ Ht). cbn [mbind outcome_bind]. rewrite Hs.
  cbn [fst snd Z.gtb Z.compare TASK_PAUSE mbind outcome_bind].
  rewrite (proj2 (Z.eqb_neq _ _) Hc). cbn [negb].
  now rewrite (load_Some _ _ _ Ht).
Qed.

End DispatchFacts.

(** The two statuses the loop handles as their names say: a task in
    status [TASK_SCHEDULED] is called and planned again one period later,
    with its status left; a task in status [TASK_ONE_SHOT] is called once
    and paused, and further iterations call nothing. *)
Example dispatch_scheduled_and_one_shot :
  exists s1 s1' s2 s2',
    Examples.one_task_in TASK_SCHEDULED = Done (s1, true) /\
    Scheduler_iteration Examples.idle (set_ticks s1 50) = Done (s1', [7]) /\
    heap s1' !! 10
    = Some {| taskPointer := 7; taskInterval := 50; plannedTask := 100;
              taskStatus := TASK_SCHEDULED; gptrTaskNext := 10 |} /\
    Examples.one_task_in TASK_ONE_SHOT = Done (s2, true) /\
    Scheduler_iteration Examples.idle (set_ticks s2 50) = Done (s2', [7]) /\
    heap s2' !! 10
    = Some {| taskPointer := 7; taskInterval := 50; plannedTask := 50;
              taskStatus := TASK_PAUSE; gptrTaskNext := 10 |} /\
    (Scheduler_iterations Examples.idle 5 (set_ticks s2' 1000) ≫= fun x => Done x.2)
    = Done [].
Proof.
  do 4 eexists. split_and!.
  - vm_compute. reflexivity.
  - vm_compute. reflexivity.
  - vm_compute. reflexivity.
  - vm_compute. reflexivity.
  - vm_compute. reflexivity.
  - vm_compute. reflexivity.
  - vm_compute. reflexivity.
Qed.

(** C1.  One task, due, with a body that leaves the scheduler alone.
    With status [TASK_ONE_SHOT_NOW] the loop calls it, sets the planned
    tick to [now + period] and leaves the status: the task is not paused,
    and it is called again when that tick comes.  With status
    [TASK_RUN_NOW] the loop calls it and pauses it without touching the
    planned tick: it is never called again. *)
Theorem dispatch_swaps_the_now_statuses :
  exists s5 s5' s3 s3',
    Examples.one_task_in TASK_ONE_SHOT_NOW = Done (s5, true) /\
    Scheduler_iteration Examples.idle s5 = Done (s5', [7]) /\
    heap s5' !! 10
    = Some {| taskPointer := 7; taskInterval := 50; plannedTask := 50;
              taskStatus := TASK_ONE_SHOT_NOW; gptrTaskNext := 10 |} /\
    (Scheduler_iterations Examples.idle 3 (set_ticks s5' 50) ≫= fun x => Done x.2)
    = Done [7] /\
    Examples.one_task_in TASK_RUN_NOW = Done (s3, true) /\
    Scheduler_iteration Examples.idle s3 = Done (s3', [7]) /\
    heap s3' !! 10
    = Some {| taskPointer := 7; taskInterval := 50; plannedTask := 0;
              taskStatus := TASK_PAUSE; gptrTaskNext := 10 |} /\
    (Scheduler_iterations Examples.idle 3 (set_ticks s3' 50) ≫= fun x => Done x.2)
    = Done [].
Proof.
  do 4 eexists. split_and!.
  - vm_compute. reflexivity.
  - vm_compute. reflexivity.
  - vm_compute. reflexivity.
  - vm_compute. reflexivity.
  - vm_compute. reflexivity.
  - vm_compute. reflexivity.
  - vm_compute. reflexivity.
  - vm_compute. reflexivity.
Qed.

(** C4.  A task is added 105 ticks before the 64-bit counter wraps, with
    a period of 100: its planned tick is five ticks before the wrap, and
    the 32-bit field holds [2^32 - 5].  The counter wraps to 0 with the
    task still waiting.  The loop then computes the difference
    [2^32 - 5 - 0], which is positive as a 64-bit signed value: the task
    is judged not due and nothing is called. *)
Theorem due_test_false_after_counter_wrap :
  exists r s,
    Examples.before_wrap = Done r /\ ret r = true /\
    plannedTask <$> heap (after r) !! 10 = Some (2 ^ 32 - 5) /\
    uintmax (glbSysTicks (after r) + 100) = 2 ^ 64 - 5 /\
    Examples.after_wrap = Done s /\ glbSysTicks s = 0 /\
    heap s = heap (after r) /\
    elapsedTime (2 ^ 32 - 5) (glbSysTicks s) = 2 ^ 32 - 5 /\
    due (2 ^ 32 - 5) (glbSysTicks s) = false /\
    (Scheduler_iteration Examples.idle s ≫= fun x => Done x.2) = Done [].
Proof.
  do 2 eexists. split_and!.
  - vm_compute. reflexivity.
  - reflexivity.
  - vm_compute. reflexivity.
  - vm_compute. reflexivity.
  - vm_compute. reflexivity.
  - reflexivity.
  - reflexivity.
  - vm_compute. reflexivity.
  - vm_compute. reflexivity.
  - vm_compute. reflexivity.
Qed.

(** ** The circle of tasks *)

(** Membership in lists built with [::] and [++]. *)
Ltac list_mem_step :=
  match goal with
  | H : _ ∈ _ :: _ |- _ => apply elem_of_cons in H
  | H : _ ∈ _ ++ _ |- _ => apply elem_of_app in H
  | H : _ ∈ [] |- _ => apply elem_of_nil in H
  | H : _ ∉ _ :: _ |- _ => apply not_elem_of_cons in H
  | H : _ ∉ _ ++ _ |- _ => apply not_elem_of_app in H
  | H : _ /\ _ |- _ => destruct H
  | H : _ \/ _ |- _ => destruct H
  | |- _ => progress intros
  | |- _ =>
      progress rewrite ?not_elem_of_cons, ?not_elem_of_app, ?elem_of_cons,
        ?elem_of_app, ?elem_of_nil
  end.

Ltac list_mem := repeat list_mem_step; intuition (subst; try congruence; eauto).

Lemma chain_app h l1 : forall a x l2 z,
  chain h a (l1 ++ x :: l2) z <-> chain h a l1 x /\ chain h x l2 z.
Proof.
  induction l1 as [|b l1 IH]; intros a x l2 z; cbn [app chain].
  - tauto.
  - rewrite IH. tauto.
Qed.

Lemma chain_snoc h l a x z :
  chain h a (l ++ [x]) z <-> chain h a l x /\ gptrTaskNext <$> h !! x = Some z.
Proof. apply chain_app. Qed.

(** A chain only depends on the links of its own nodes. *)
Lemma chain_ext h h' l : forall a z,
  (forall p, p ∈ a :: l -> gptrTaskNext <$> h' !! p = gptrTaskNext <$> h !! p) ->
  chain h a l z -> chain h' a l z.
Proof.
  induction l as [|b l IH]; intros a z E; cbn [chain].
  - rewrite E by (apply elem_of_cons; now left). auto.
  - intros [H1 H2]. rewrite E by (apply elem_of_cons; now left). split; [exact H1|].
    apply IH; [|exact H2]. intros p Hp. apply E. apply elem_of_cons. now right.
Qed.

Lemma chain_allocated h l : forall a z p,
  chain h a l z -> p ∈ a :: l -> is_Some (h !! p).
Proof.
  induction l as [|b l IH]; intros a z p; cbn [chain].
  - intros H Hp. apply elem_of_cons in Hp as [-> | Hp];
      [|now apply elem_of_nil in Hp].
    apply fmap_Some in H as (t & -> & _). eauto.
  - intros [H1 H2] Hp. apply elem_of_cons in Hp as [-> | Hp].
    + apply fmap_Some in H1 as (t & -> & _). eauto.
    + eapply IH; eauto.
Qed.

Lemma last_indep (l : list Z) : forall c a b,
  List.last (c :: l) a = List.last (c :: l) b.
Proof.
  induction l as [|d l IH]; intros c a b; [reflexivity|].
  change (List.last (d :: l) a = List.last (d :: l) b). apply IH.
Qed.

Lemma last_cons (l : list Z) a b : List.last (b :: l) a = List.last l b.
Proof. destruct l as [|c l]; [reflexivity|]. apply (last_indep l c a b). Qed.

Lemma last_elem (l : list Z) : forall a, List.last l a ∈ a :: l.
Proof.
  induction l as [|b l IH]; intros a.
  - apply elem_of_cons. now left.
  - rewrite last_cons. apply elem_of_cons. right. apply IH.
Qed.

(** Redirecting the link of the last node of a chain. *)
Lemma chain_set_last h l : forall a z z' t,
  chain h a l z -> NoDup (a :: l) -> h !! List.last l a = Some t ->
  chain (<[List.last l a := with_next z' t]> h) a l z'.
Proof.
  induction l as [|b l IH]; intros a z z' t; cbn [chain].
  - cbn. intros _ _ _. now rewrite lookup_insert_eq.
  - intros [H1 H2] Hnd Ht.
    rewrite last_cons in *.
    apply NoDup_cons in Hnd as [Ha Hnd].
    assert (Hne : List.last l b <> a).
    { intros <-. apply Ha. apply last_elem. }
    rewrite lookup_insert_ne by assumption. split; [exact H1|].
    eapply IH; eauto.
Qed.

(** The walk of the two list functions: on a chain from [a] that ends
    with a link to [stop] and does not pass [stop] before, the loop exits
    at the last node. *)
Lemma walk_chain h stop l : forall a fuel,
  chain h a l stop -> stop ∉ l -> (length l < fuel)%nat ->
  walk fuel h a stop = Done (List.last l a).
Proof.
  induction l as [|b l IH]; intros a fuel; cbn [chain length].
  - intros H _ Hf. destruct fuel as [|fuel]; [lia|]. cbn [walk].
    apply fmap_Some in H as (t & Ht & ->).
    rewrite (load_Some _ _ _ Ht). cbn [mbind outcome_bind].
    now rewrite Z.eqb_refl.
  - intros [H1 H2] Hs Hf. destruct fuel as [|fuel]; [lia|]. cbn [walk].
    apply fmap_Some in H1 as (t & Ht & Hb).
    rewrite (load_Some _ _ _ Ht). cbn [mbind outcome_bind]. rewrite <- Hb.
    apply not_elem_of_cons in Hs as [Hsb Hs].
    rewrite (proj2 (Z.eqb_neq _ _)) by congruence.
    rewrite IH by (auto; lia). now rewrite last_cons.
Qed.

(** Following the links along a chain. *)
Lemma follow_chain h l : forall a z,
  chain h a l z -> follow (S (length l)) h a = Done z.
Proof.
  induction l as [|b l IH]; intros a z; cbn [chain length].
  - intros H. apply fmap_Some in H as (t & Ht & ->).
    cbn [follow]. now rewrite (load_Some _ _ _ Ht).
  - intros [H1 H2]. apply fmap_Some in H1 as (t & Ht & ->).
    change (follow (S (S (length l))) h a)
      with (t' ← load h a; follow (S (length l)) h (gptrTaskNext t')).
    rewrite (load_Some _ _ _ Ht). cbn [mbind outcome_bind]. now apply IH.
Qed.

Lemma follow_inside h l : forall a z (k : nat),
  chain h a l z -> (k <= length l)%nat ->
  follow k h a = Done (nth k (a :: l) a).
Proof.
  induction l as [|b l IH]; intros a z k; cbn [chain length].
  - intros _ Hk. assert (k = O) by lia. subst. reflexivity.
  - intros [H1 H2] Hk. destruct k as [|k]; [reflexivity|].
    apply fmap_Some in H1 as (t & Ht & ->).
    cbn [follow]. rewrite (load_Some _ _ _ Ht). cbn [mbind outcome_bind].
    rewrite (IH _ _ k H2) by lia. f_equal.
    change (nth (S k) (a :: gptrTaskNext t :: l) a)
      with (nth k (gptrTaskNext t :: l) a).
    apply nth_indep. cbn [length]. lia.
Qed.

(** The insertion block on a circle: the new descriptor is linked after
    the last task and back to the first. *)
Lemma link_task_ring fuel s L x tx :
  ring s L -> x ∉ L -> x <> NULL -> heap s !! x = Some tx ->
  (length L <= fuel)%nat ->
  exists s1 t,
    link_task fuel s x = Done s1 /\ heap s1 !! x = Some t /\
    glbInitialized s1 = glbInitialized s /\
    glbNumberOfTasks s1 = glbNumberOfTasks s /\
    gptrTaskFirst s1 = hd x L /\ gptrTaskSchedule s1 = hd x L /\
    chain (heap s1) (hd x L) (tl (L ++ [x])) (hd x L).
Proof.
  intros (Hi & Hn & Hlen & R) Hx Hx0 Htx Hf. unfold link_task.
  destruct L as [|a l].
  - rewrite R. cbn [negb Z.eqb NULL].
    cbn [heap set_schedule set_first]. rewrite (store_Some _ _ _ _ Htx).
    cbn [mbind outcome_bind]. do 2 eexists. split; [reflexivity|].
    cbn. rewrite lookup_insert_eq. repeat split; reflexivity.
  - destruct R as (Hfirst & Hsched & Hnd & Hnull & Hch).
    rewrite Hfirst, Hsched.
    assert (Ha0 : a <> NULL) by list_mem.
    rewrite (proj2 (Z.eqb_neq _ _) Ha0). cbn [negb].
    apply NoDup_cons in Hnd as Hnd'. destruct Hnd' as [Hal Hndl].
    cbn [length] in Hf.
    rewrite (walk_chain _ _ _ _ _ Hch Hal) by lia. cbn [mbind outcome_bind].
    destruct (chain_allocated _ _ _ _ _ Hch (last_elem l a)) as [tlast Htl].
    rewrite (store_Some _ _ _ _ Htl). cbn [mbind outcome_bind].
    assert (Hxl : List.last l a <> x).
    { intros E. apply Hx. rewrite <- E. apply last_elem. }
    assert (Htx1 : <[List.last l a := with_next x tlast]> (heap s) !! x = Some tx)
      by now rewrite lookup_insert_ne.
    rewrite (store_Some _ _ _ _ Htx1). cbn [mbind outcome_bind].
    do 2 eexists. split; [reflexivity|].
    cbn [heap set_heap glbInitialized glbNumberOfTasks gptrTaskFirst gptrTaskSchedule
         hd tl app].
    split; [apply lookup_insert_eq|]. repeat split; try assumption.
    apply chain_snoc. split.
    + apply chain_ext with (h := <[List.last l a := with_next x tlast]> (heap s)).
      * intros p Hp. rewrite lookup_insert_ne; [reflexivity|]. list_mem.
      * eapply chain_set_last; eauto.
    + now rewrite lookup_insert_eq.
Qed.

(** Adding a descriptor that is not in the circle appends it. *)
Theorem AddTask_ring fuel scratch s L x cb iv st :
  ring s L -> x ∉ L -> x <> NULL -> is_Some (heap s !! x) -> cb <> NULL ->
  (length L < 255)%nat -> (length L <= fuel)%nat ->
  exists r,
    minirtos_AddTask fuel scratch s x cb iv st = Done r /\ ret r = true /\
    ring (after r) (L ++ [x]).
Proof.
  intros R Hx Hx0 [tx Htx] Hcb Hlt Hf.
  destruct (link_task_ring fuel s L x tx R Hx Hx0 Htx Hf)
    as (s1 & t & Hl & Ht & Ki & Kn & Kf & Ks & Kc).
  destruct R as (Hi & Hn & Hlen & R).
  unfold minirtos_AddTask.
  rewrite (proj2 (Z.eqb_neq _ _) Hi), (proj2 (Z.eqb_neq _ _) Hcb),
    (proj2 (Z.eqb_neq _ _) Hx0).
  rewrite (proj2 (Z.eqb_neq (glbNumberOfTasks s) _))
    by (rewrite Hn; unfold MAX_TASKS_NUMBER; lia).
  cbn [orb negb]. rewrite Hl. cbn [mbind outcome_bind].
  rewrite (fill_task_Some _ _ _ _ _ _ Ht). cbn [mbind outcome_bind].
  eexists. split; [reflexivity|]. split; [reflexivity|].
  cbn [after]. unfold ring.
  cbn [glbInitialized glbNumberOfTasks gptrTaskFirst gptrTaskSchedule heap
       set_count set_heap].
  rewrite length_app. cbn [length].
  split; [congruence|]. split.
  { rewrite Kn, Hn, uint8_small by lia. lia. }
  split; [lia|].
  assert (Hc' : chain (<[x := filled (glbSysTicks s1) cb (checked_interval iv)
                                (checked_status st) t]> (heap s1))
                  (hd x L) (tl (L ++ [x])) (hd x L)).
  { eapply chain_ext; [|exact Kc]. intros p Hp.
    destruct (decide (p = x)) as [->|Hpx].
    - rewrite lookup_insert_eq, Ht. cbn. unfold filled.
      now destruct (_ || _).
    - now rewrite lookup_insert_ne. }
  destruct L as [|a l]; cbn [app hd tl] in *.
  - repeat split; try assumption.
    + apply NoDup_singleton.
    + list_mem.
  - destruct R as (_ & _ & Hnd & Hnull & _).
    repeat split; try assumption.
    + change (a :: l ++ [x]) with ((a :: l) ++ [x]).
      apply NoDup_app. split; [exact Hnd|]. split; [list_mem|apply NoDup_singleton].
    + list_mem.
Qed.

Lemma chain_last_link h l : forall a z,
  chain h a l z -> gptrTaskNext <$> h !! List.last l a = Some z.
Proof.
  induction l as [|b l IH]; intros a z; cbn [chain]; [auto|].
  intros [_ H]. rewrite last_cons. now apply IH.
Qed.

Lemma chain_first_link h l a z :
  chain h a l z -> gptrTaskNext <$> h !! a = Some (hd z l).
Proof. destruct l; cbn [chain hd]; tauto. Qed.

(** The stores of a removal, up to the call of [free]: removing a task
    that is not the first one links its predecessor to its successor,
    takes one off the count and leaves the descriptor of the removed
    task as it was; the pointer then handed to [free] is the
    predecessor. *)
Lemma RemoveTask_ring fuel scratch s a l1 x l2 :
  ring s (a :: l1 ++ x :: l2) -> glbNumberOfTasks s <> MAX_TASKS_NUMBER ->
  (length l1 < fuel)%nat ->
  exists r,
    minirtos_RemoveTask fuel scratch s x = Done r /\ ret r = true /\
    ring (after r) (a :: l1 ++ l2) /\
    gptrTaskNext <$> heap (after r) !! List.last l1 a = gptrTaskNext <$> heap s !! x /\
    heap (after r) !! x = heap s !! x /\
    freed r = [List.last l1 a].
Proof.
  intros (Hi & Hn & Hlen & Hfirst & Hsched & Hnd & Hnull & Hch) H255 Hf.
  apply chain_app in Hch as [Hc1 Hc2].
  assert (Hx0 : x <> NULL) by list_mem.
  apply NoDup_cons in Hnd as Hnd'. destruct Hnd' as [Hal Hndl].
  apply NoDup_app in Hndl as (Hnd1 & Hdisj & Hnd2).
  apply NoDup_cons in Hnd2 as [Hx2 Hnd2].
  assert (Hxa : x <> a) by list_mem.
  assert (Hx1 : x ∉ l1) by (intros Hin; apply (Hdisj x Hin); list_mem).
  assert (Hnda : NoDup (a :: l1)) by (apply NoDup_cons; split; [list_mem|assumption]).
  unfold minirtos_RemoveTask.
  rewrite (proj2 (Z.eqb_neq _ _) Hi), (proj2 (Z.eqb_neq _ _) H255),
    (proj2 (Z.eqb_neq _ _) Hx0).
  cbn [orb]. rewrite Hfirst.
  rewrite (walk_chain _ _ _ _ _ Hc1 Hx1 Hf). cbn [mbind outcome_bind].
  pose proof (chain_last_link _ _ _ _ Hc1) as Hlast.
  apply fmap_Some in Hlast as (tp & Htp & Hnext).
  rewrite (load_Some _ _ _ Htp). cbn [mbind outcome_bind]. rewrite <- Hnext.
  rewrite (proj2 (Z.eqb_neq _ _) Hxa).
  pose proof (chain_first_link _ _ _ _ Hc2) as Hxn.
  apply fmap_Some in Hxn as (tu & Htu & Hnx).
  rewrite (load_Some _ _ _ Htu). cbn [mbind outcome_bind].
  rewrite (store_Some _ _ _ _ Htp). cbn [mbind outcome_bind].
  assert (Hpx : List.last l1 a <> x).
  { intros E. pose proof (last_elem l1 a) as Hin. rewrite E in Hin. list_mem. }
  eexists. split; [reflexivity|]. split; [reflexivity|].
  cbn [after freed heap set_count set_heap].
  split; [|split; [|split]]; [| |now rewrite lookup_insert_ne|reflexivity].
  2:{ rewrite lookup_insert_eq, Htu. reflexivity. }
  unfold ring.
  cbn [glbInitialized glbNumberOfTasks gptrTaskFirst gptrTaskSchedule heap
       set_count set_heap].
  cbn [length] in *. rewrite length_app in *. cbn [length] in *.
  split; [assumption|]. split.
  { rewrite Hn, uint8_small by lia. lia. }
  split; [lia|]. split; [assumption|]. split; [assumption|].
  split; [|split].
  - apply NoDup_cons. split; [list_mem|].
    apply NoDup_app. split; [assumption|]. split; [|assumption].
    intros y Hy Hy2. apply (Hdisj y Hy). list_mem.
  - list_mem.
  - rewrite <- Hnx.
    destruct l2 as [|y l2]; cbn [hd].
    + rewrite app_nil_r. eapply chain_set_last; eauto.
    + destruct Hc2 as [_ Hc2]. apply chain_app. split.
      * eapply chain_set_last; eauto.
      * eapply chain_ext; [|exact Hc2]. intros p Hp.
        rewrite lookup_insert_ne; [reflexivity|].
        intros <-. pose proof (last_elem l1 a) as Hin.
        apply elem_of_cons in Hin as [E | Hin].
        -- rewrite E in Hp. list_mem.
        -- apply (Hdisj _ Hin). list_mem.
Qed.

(** Removing the first task changes no link: the walk stops at the last
    task, whose link to the removed task stays, and only [gptrTaskFirst]
    moves -- to the second task, or nowhere when the task is alone.  The
    count goes down by one and the last task is handed to [free]. *)
Lemma RemoveTask_first fuel scratch s a l :
  ring s (a :: l) -> glbNumberOfTasks s <> MAX_TASKS_NUMBER ->
  (length l < fuel)%nat ->
  minirtos_RemoveTask fuel scratch s a
  = Done (mkResult (set_count (set_first s (hd a l)) (Z.of_nat (length l)))
                   true [List.last l a]).
Proof.
  intros (Hi & Hn & Hlen & Hfirst & Hsched & Hnd & Hnull & Hch) H255 Hf.
  assert (Ha0 : a <> NULL) by list_mem.
  apply NoDup_cons in Hnd as [Hal _].
  unfold minirtos_RemoveTask.
  rewrite (proj2 (Z.eqb_neq _ _) Hi), (proj2 (Z.eqb_neq _ _) H255),
    (proj2 (Z.eqb_neq _ _) Ha0).
  cbn [orb]. rewrite Hfirst.
  rewrite (walk_chain _ _ _ _ _ Hch Hal Hf). cbn [mbind outcome_bind].
  pose proof (chain_last_link _ _ _ _ Hch) as Hlast.
  apply fmap_Some in Hlast as (tp & Htp & Hnext).
  rewrite (load_Some _ _ _ Htp). cbn [mbind outcome_bind]. rewrite <- Hnext.
  rewrite Z.eqb_refl.
  pose proof (chain_first_link _ _ _ _ Hch) as Han.
  apply fmap_Some in Han as (ta & Hta & Hna).
  rewrite (load_Some _ _ _ Hta). cbn [mbind outcome_bind]. rewrite <- Hna.
  cbn [glbNumberOfTasks set_first]. rewrite Hn. cbn [length] in *.
  rewrite uint8_small by lia. do 3 f_equal. lia.
Qed.

(** On a circle the first task follows the last, a task alone follows
    itself, and the walk from the first task comes back to it after as
    many steps as there are tasks and not before. *)
Lemma ring_circular s a l :
  ring s (a :: l) ->
  gptrTaskFirst s = a /\
  gptrTaskNext <$> heap s !! List.last l a = Some a /\
  (l = [] -> gptrTaskNext <$> heap s !! a = Some a) /\
  glbNumberOfTasks s = Z.of_nat (length (a :: l)) /\
  follow (length (a :: l)) (heap s) a = Done a /\
  (forall k, (0 < k < length (a :: l))%nat ->
             exists b, follow k (heap s) a = Done b /\ b <> a).
Proof.
  intros (Hi & Hn & Hlen & Hfirst & Hsched & Hnd & Hnull & Hch).
  split; [assumption|]. split; [now apply chain_last_link|].
  split; [intros ->; exact Hch|]. split; [assumption|].
  split; [now apply follow_chain|].
  intros k Hk. cbn [length] in Hk.
  rewrite (follow_inside _ _ _ _ k Hch) by lia.
  eexists. split; [reflexivity|].
  destruct k as [|k]; [lia|]. cbn [nth].
  apply NoDup_cons in Hnd as [Hal _]. intros E. apply Hal. rewrite <- E.
  apply list_elem_of_In. apply nth_In. lia.
Qed.

(** ** What a removal hands to [free] *)

(** Where the walk of the two list functions stops: at a descriptor that
    links to the target, some steps along the links from where it
    started. *)
Lemma walk_Done fuel h : forall a stop p,
  walk fuel h a stop = Done p ->
  exists t k, h !! p = Some t /\ gptrTaskNext t = stop /\ follow k h a = Done p.
Proof.
  induction fuel as [|fuel IH]; intros a stop p H; [discriminate|].
  cbn [walk] in H. apply bind_Done in H as (t & Ht & H). apply load_Done in Ht.
  destruct (Z.eqb_spec (gptrTaskNext t) stop) as [E|E].
  - injection H as <-. exists t, O. auto.
  - apply IH in H as (t' & k & Ht' & Hn & Hk). exists t', (S k).
    split_and!; [assumption | assumption |].
    cbn [follow]. now rewrite (load_Some _ _ _ Ht).
Qed.

(** X15.  What a removal hands to [free].  [minirtos_RemoveTask] overwrites
    the pointer it got from [malloc] with [gptrTaskFirst] and walks it
    along the list, so in every call that gets as far as returning true,
    the one pointer handed to [free] is a descriptor of the application:
    the task that links to the target, reached from the first task along
    the links -- and never the block [malloc] returned, which is not a
    descriptor.  C does not define what such a [free] does; the model
    says nothing about the descriptor after it. *)
Theorem RemoveTask_frees_a_task fuel scratch s x r :
  minirtos_RemoveTask fuel scratch s x = Done r -> ret r = true ->
  exists p t k,
    freed r = [p] /\ heap s !! p = Some t /\ gptrTaskNext t = x /\
    follow k (heap s) (gptrTaskFirst s) = Done p /\
    (heap s !! scratch = None -> p <> scratch).
Proof.
  unfold minirtos_RemoveTask.
  destruct ((glbInitialized s =? 0) || (glbNumberOfTasks s =? MAX_TASKS_NUMBER)
            || (x =? NULL)); [intros [= <-]; discriminate|].
  intros H _. apply bind_Done in H as (p & Hw & H).
  apply bind_Done in H as (t0 & _ & H).
  apply bind_Done in H as (s1 & _ & H). injection H as <-.
  apply walk_Done in Hw as (t & k & Ht & Hn & Hk).
  exists p, t, k. cbn [freed]. split_and!; try assumption; [reflexivity|].
  intros Hs ->. congruence.
Qed.

(** C7.  Three tasks at 10, 20 and 30; the first one is removed.  The
    call returns true, the count goes from 3 to 2 and [gptrTaskFirst]
    moves to 20, but no link is written: the last task, 30, still links
    to 10, and 10 still links to 20, so the removed task is still in the
    circle and the dispatch loop still calls it.  The pointer handed to
    [free] is the last task.  When the only task of a list is removed,
    [gptrTaskFirst] stays on it (the list does not become empty) and the
    removed descriptor itself is handed to [free]. *)
Theorem RemoveTask_first_stays_linked :
  exists r3 r r1,
    Examples.three_tasks = Done r3 /\
    Examples.head_removed = Done r /\
    ret r = true /\ freed r = [30] /\
    glbNumberOfTasks (after r3) = 3 /\ glbNumberOfTasks (after r) = 2 /\
    gptrTaskFirst (after r3) = 10 /\ gptrTaskFirst (after r) = 20 /\
    heap (after r) = heap (after r3) /\
    gptrTaskNext <$> heap (after r) !! 30 = Some 10 /\
    gptrTaskNext <$> heap (after r) !! 10 = Some 20 /\
    (Scheduler_iterations Examples.idle 3 (set_ticks (after r) 50) ≫= fun x => Done x.2)
    = Done [7; 8; 9] /\
    Examples.sole_removed = Done r1 /\
    ret r1 = true /\ freed r1 = [10] /\
    glbNumberOfTasks (after r1) = 0 /\ gptrTaskFirst (after r1) = 10.
Proof.
  do 3 eexists. split_and!.
  - vm_compute. reflexivity.
  - vm_compute. reflexivity.
  - reflexivity.
  - reflexivity.
  - reflexivity.
  - reflexivity.
  - reflexivity.
  - reflexivity.
  - reflexivity.
  - vm_compute. reflexivity.
  - vm_compute. reflexivity.
  - vm_compute. reflexivity.
  - vm_compute. reflexivity.
  - reflexivity.
  - reflexivity.
  - reflexivity.
  - reflexivity.
Qed.

(** C6.  After the same three successful additions and the successful
    removal of the first task, the scheduler counts 2 tasks and the first
    task is 20; two steps from it along the links end on 10, the removed
    task, and not on 20; the last task links to 10, not to the first
    task.  And after one task is added and removed and another one is
    added, the count is 1, the first task is still the removed 10, and
    one step from it ends on 20. *)
Theorem circle_lost_by_removing_first :
  exists r r',
    Examples.head_removed = Done r /\ ret r = true /\
    glbNumberOfTasks (after r) = 2 /\ gptrTaskFirst (after r) = 20 /\
    follow 2 (heap (after r)) (gptrTaskFirst (after r)) = Done 10 /\
    follow 3 (heap (after r)) (gptrTaskFirst (after r)) = Done 20 /\
    gptrTaskNext <$> heap (after r) !! 30 = Some 10 /\
    Examples.added_after_sole_removed = Done r' /\ ret r' = true /\
    glbNumberOfTasks (after r') = 1 /\ gptrTaskFirst (after r') = 10 /\
    follow 1 (heap (after r')) (gptrTaskFirst (after r')) = Done 20.
Proof.
  do 2 eexists. split_and!.
  - vm_compute. reflexivity.
  - reflexivity.
  - reflexivity.
  - reflexivity.
  - vm_compute. reflexivity.
  - vm_compute. reflexivity.
  - vm_compute. reflexivity.
  - vm_compute. reflexivity.
  - reflexivity.
  - reflexivity.
  - reflexivity.
  - vm_compute. reflexivity.
Qed.

(** ** Calls that are refused *)

Lemma AddTask_false fuel scratch s p cb iv st r :
  minirtos_AddTask fuel scratch s p cb iv st = Done r -> ret r = false ->
  r = mkResult s false [scratch].
Proof.
  unfold minirtos_AddTask.
  destruct ((glbInitialized s =? 0) || (glbNumberOfTasks s =? MAX_TASKS_NUMBER)
            || (cb =? NULL)); [now intros [= <-]|].
  destruct (negb (p =? NULL)); [|now intros [= <-]].
  intros H Hr. apply bind_Done in H as (s1 & _ & H).
  apply bind_Done in H as (s2 & _ & H). injection H as <-. discriminate.
Qed.

Lemma RemoveTask_false fuel scratch s p r :
  minirtos_RemoveTask fuel scratch s p = Done r -> ret r = false ->
  r = mkResult s false [scratch].
Proof.
  unfold minirtos_RemoveTask.
  destruct ((glbInitialized s =? 0) || (glbNumberOfTasks s =? MAX_TASKS_NUMBER)
            || (p =? NULL)); [now intros [= <-]|].
  intros H Hr. apply bind_Done in H as (q & _ & H).
  apply bind_Done in H as (t & _ & H).
  apply bind_Done in H as (s1 & _ & H). injection H as <-. discriminate.
Qed.

(** X10.  No partial change: a call of the scheduler's interface that returns
    false leaves the scheduler and every descriptor as they were; the two
    list functions then hand to [free] the block they got from [malloc]
    and nothing else. *)
Theorem refused_call_changes_nothing fuel scratch s p cb iv st :
  (forall r, minirtos_AddTask fuel scratch s p cb iv st = Done r -> ret r = false ->
             after r = s /\ freed r = [scratch]) /\
  (forall r, minirtos_RemoveTask fuel scratch s p = Done r -> ret r = false ->
             after r = s /\ freed r = [scratch]) /\
  (forall s', minirtos_PauseTask s p = Done (s', false) -> s' = s) /\
  (forall s', minirtos_ResumeTask s p = Done (s', false) -> s' = s) /\
  (forall s', minirtos_ModifyTask s p iv st = Done (s', false) -> s' = s).
Proof.
  split_and!.
  - intros r H Hr. now rewrite (AddTask_false _ _ _ _ _ _ _ _ H Hr).
  - intros r H Hr. now rewrite (RemoveTask_false _ _ _ _ _ H Hr).
  - intros s'. unfold minirtos_PauseTask.
    destruct ((glbInitialized s =? 0) || (p =? NULL)); [now intros [= <-]|].
    intros H. apply bind_Done in H as (h & _ & H). discriminate.
  - intros s'. unfold minirtos_ResumeTask.
    destruct ((glbInitialized s =? 0) || (p =? NULL)); [now intros [= <-]|].
    intros H. apply bind_Done in H as (h & _ & H).
    apply bind_Done in H as (t & _ & H).
    apply bind_Done in H as (h' & _ & H). discriminate.
  - intros s'. unfold minirtos_ModifyTask.
    destruct ((glbInitialized s =? 0) || (p =? NULL)); [now intros [= <-]|].
    destruct (st >? TASK_ONE_SHOT_NOW); [now intros [= <-]|].
    intros H. apply bind_Done in H as (h1 & _ & H).
    apply bind_Done in H as (h2 & _ & H).
    apply bind_Done in H as (h3 & _ & H). discriminate.
Qed.

(** X11.  Before [minirtos_Init], and with a null descriptor, every function of
    the interface refuses: the five that return a boolean return false
    and change nothing, and [minirtos_GetTaskStatus] answers
    [TASK_NOT_FOUND]. *)
Theorem calls_refused fuel scratch s p cb iv st :
  glbInitialized s = 0 \/ p = NULL ->
  minirtos_AddTask fuel scratch s p cb iv st = Done (mkResult s false [scratch]) /\
  minirtos_RemoveTask fuel scratch s p = Done (mkResult s false [scratch]) /\
  minirtos_PauseTask s p = Done (s, false) /\
  minirtos_ResumeTask s p = Done (s, false) /\
  minirtos_ModifyTask s p iv st = Done (s, false) /\
  minirtos_GetTaskStatus s p = Done TASK_NOT_FOUND.
Proof.
  intros H.
  assert (G : (glbInitialized s =? 0) || (p =? NULL) = true).
  { destruct H as [-> | ->]; [reflexivity | apply orb_true_r]. }
  unfold minirtos_AddTask, minirtos_RemoveTask, minirtos_PauseTask,
    minirtos_ResumeTask, minirtos_ModifyTask, minirtos_GetTaskStatus.
  rewrite G. split_and!; try reflexivity.
  - destruct H as [-> | ->]; [reflexivity|].
    now destruct ((glbInitialized s =? 0) || (glbNumberOfTasks s =? MAX_TASKS_NUMBER)
                  || (cb =? NULL)).
  - destruct H as [-> | ->]; [reflexivity|].
    cbn. now rewrite !orb_true_r.
Qed.

Lemma calls_refused_witness :
  minirtos_AddTask 255 901 (boot 0 Examples.three_objects) 10 7 50 TASK_SCHEDULED
  = Done (mkResult (boot 0 Examples.three_objects) false [901]).
Proof.
  assert (H : glbInitialized (boot 0 Examples.three_objects) = 0 \/ 10 = NULL)
    by (left; reflexivity).
  exact (proj1 (calls_refused 255 901 (boot 0 Examples.three_objects) 10 7 50
                  TASK_SCHEDULED H)).
Defined.

(** X12.  A full list is a dead end.  With 255 tasks counted,
    [minirtos_AddTask] refuses, and so does [minirtos_RemoveTask], for
    every descriptor: the test on the task count that guards the
    addition guards the removal too, so the count can never leave 255. *)
Theorem full_list_is_stuck fuel scratch s p cb iv st :
  glbNumberOfTasks s = MAX_TASKS_NUMBER ->
  minirtos_AddTask fuel scratch s p cb iv st = Done (mkResult s false [scratch]) /\
  minirtos_RemoveTask fuel scratch s p = Done (mkResult s false [scratch]).
Proof.
  intros H. unfold minirtos_AddTask, minirtos_RemoveTask. rewrite H.
  cbn. now rewrite !orb_true_r.
Qed.

Lemma full_list_is_stuck_witness :
  minirtos_RemoveTask 255 904 (set_count Examples.one_state 255) 10
  = Done (mkResult (set_count Examples.one_state 255) false [904]).
Proof.
  assert (H : glbNumberOfTasks (set_count Examples.one_state 255) = MAX_TASKS_NUMBER)
    by reflexivity.
  exact (proj2 (full_list_is_stuck 255 904 (set_count Examples.one_state 255) 10 7 50
                  TASK_SCHEDULED H)).
Defined.

(** ** Status calls *)

Lemma PauseTask_Some s p t :
  glbInitialized s <> 0 -> p <> NULL -> heap s !! p = Some t ->
  minirtos_PauseTask s p
  = Done (set_heap s (<[p := with_status TASK_PAUSE t]> (heap s)), true).
Proof.
  intros Hi Hp Ht. unfold minirtos_PauseTask.
  rewrite (proj2 (Z.eqb_neq _ _) Hi), (proj2 (Z.eqb_neq _ _) Hp). cbn [orb].
  now rewrite (store_Some _ _ _ _ Ht).
Qed.

Lemma ResumeTask_Some s p t :
  glbInitialized s <> 0 -> p <> NULL -> heap s !! p = Some t ->
  minirtos_ResumeTask s p
  = Done (set_heap s
            (<[p := with_planned (uint32 (glbSysTicks s + taskInterval t))
                      (with_status TASK_SCHEDULED t)]> (heap s)), true).
Proof.
  intros Hi Hp Ht. unfold minirtos_ResumeTask.
  rewrite (proj2 (Z.eqb_neq _ _) Hi), (proj2 (Z.eqb_neq _ _) Hp). cbn [orb].
  rewrite (store_Some _ _ _ _ Ht). cbn [mbind outcome_bind].
  rewrite (load_Some _ _ _ (lookup_insert_eq _ _ _)). cbn [mbind outcome_bind].
  rewrite (store_Some _ _ _ _ (lookup_insert_eq _ _ _)). cbn [mbind outcome_bind].
  rewrite insert_insert_eq. cbn [taskInterval with_status].
  now rewrite uint32_uintmax.
Qed.

(** X13.  What is set can be read back: [minirtos_GetTaskStatus] returns the
    status the descriptor holds; after [minirtos_PauseTask] that is
    [TASK_PAUSE], after [minirtos_ResumeTask] it is [TASK_SCHEDULED]
    whatever it was before, and after [minirtos_ModifyTask] with a status
    from 0 to 5 it is that status. *)
Theorem status_read_back s p t :
  glbInitialized s <> 0 -> p <> NULL -> heap s !! p = Some t ->
  minirtos_GetTaskStatus s p = Done (taskStatus t) /\
  (exists s1, minirtos_PauseTask s p = Done (s1, true) /\
              minirtos_GetTaskStatus s1 p = Done TASK_PAUSE) /\
  (exists s2, minirtos_ResumeTask s p = Done (s2, true) /\
              minirtos_GetTaskStatus s2 p = Done TASK_SCHEDULED) /\
  (forall iv st, st <= TASK_ONE_SHOT_NOW ->
     exists s3, minirtos_ModifyTask s p iv st = Done (s3, true) /\
                minirtos_GetTaskStatus s3 p = Done st).
Proof.
  intros Hi Hp Ht.
  assert (G : forall h, minirtos_GetTaskStatus (set_heap s h) p
                        = (t' ← load h p; Done (taskStatus t'))).
  { intros h. unfold minirtos_GetTaskStatus. cbn [glbInitialized set_heap heap].
    now rewrite (proj2 (Z.eqb_neq _ _) Hi), (proj2 (Z.eqb_neq _ _) Hp). }
  split_and!.
  - unfold minirtos_GetTaskStatus.
    rewrite (proj2 (Z.eqb_neq _ _) Hi), (proj2 (Z.eqb_neq _ _) Hp). cbn [orb].
    now rewrite (load_Some _ _ _ Ht).
  - eexists. split; [apply (PauseTask_Some s p t); assumption|].
    now rewrite G, (load_Some _ _ _ (lookup_insert_eq _ _ _)).
  - eexists. split; [apply (ResumeTask_Some s p t); assumption|].
    now rewrite G, (load_Some _ _ _ (lookup_insert_eq _ _ _)).
  - intros iv st Hst. eexists.
    split; [apply (ModifyTask_accepted s p iv st t); assumption|].
    now rewrite G, (load_Some _ _ _ (lookup_insert_eq _ _ _)).
Qed.

Lemma status_read_back_witness :
  minirtos_GetTaskStatus Examples.one_state 10 = Done TASK_SCHEDULED.
Proof.
  assert (Hi : glbInitialized Examples.one_state <> 0) by (cbn; lia).
  assert (Hp : 10 <> NULL) by (unfold NULL; lia).
  assert (L : heap Examples.one_state !! 10
              = Some (mkTask 7 50 50 TASK_SCHEDULED 10)) by reflexivity.
  exact (proj1 (status_read_back Examples.one_state 10 _ Hi Hp L)).
Defined.

(** ** Circles built and kept *)

Example three_tasks_state :
  Examples.three_tasks = Done (mkResult Examples.three_state true []).
Proof. vm_compute. reflexivity. Qed.

Lemma three_state_ring : ring Examples.three_state [10; 20; 30].
Proof.
  unfold ring. split_and!; try (cbn; lia); try reflexivity.
  - repeat constructor; list_mem; lia.
  - unfold NULL. list_mem; lia.
  - cbn [chain]. split_and!; reflexivity.
Defined.

Lemma Init_ring ticks h : ring (minirtos_Init (boot ticks h)) [].
Proof. unfold ring. cbn. split_and!; try reflexivity; lia. Qed.

Lemma store_allocated h p f h' q :
  store h p f = Done h' -> is_Some (h !! q) -> is_Some (h' !! q).
Proof.
  intros H Hq. apply store_Done in H as (t & Ht & ->).
  destruct (decide (p = q)) as [->|Hne].
  - rewrite lookup_insert_eq. eauto.
  - now rewrite lookup_insert_ne.
Qed.

Lemma link_task_allocated fuel s p s1 q :
  link_task fuel s p = Done s1 -> is_Some (heap s !! q) -> is_Some (heap s1 !! q).
Proof.
  unfold link_task. destruct (negb (gptrTaskFirst s =? NULL)).
  - intros H Hq. apply bind_Done in H as (w & _ & H).
    apply bind_Done in H as (h1 & H1 & H).
    apply bind_Done in H as (h2 & H2 & H). injection H as <-. cbn [heap set_heap].
    eapply store_allocated; [exact H2|]. eapply store_allocated; [exact H1|exact Hq].
  - cbn [heap set_schedule set_first]. intros H Hq.
    apply bind_Done in H as (h1 & H1 & H). injection H as <-. cbn [heap set_heap].
    eapply store_allocated; [exact H1|exact Hq].
Qed.

Lemma AddTask_allocated fuel scratch s p cb iv st r q :
  minirtos_AddTask fuel scratch s p cb iv st = Done r ->
  is_Some (heap s !! q) -> is_Some (heap (after r) !! q).
Proof.
  intros H Hq. destruct (ret r) eqn:Hr.
  - destruct (AddTask_true _ _ _ _ _ _ _ _ H Hr)
      as (_ & _ & _ & _ & _ & s1 & t & Hl & Ht & ->).
    cbn [heap set_count set_heap].
    destruct (decide (p = q)) as [->|Hne].
    + rewrite lookup_insert_eq. eauto.
    + rewrite lookup_insert_ne by assumption.
      eapply link_task_allocated; eauto.
  - now rewrite (AddTask_false _ _ _ _ _ _ _ _ H Hr).
Qed.

(** X14.  Adding tasks builds the circle.  On a circle (the empty one that
    [minirtos_Init] leaves included), a series of additions of distinct
    descriptors that are not in it, with a task body each and no more
    than 255 tasks in all, succeeds throughout, and the list is then the
    circle of the old tasks followed by the new ones in the order of the
    calls. *)
Theorem add_all_ring fuel scratch rs : forall s L,
  ring s L ->
  NoDup (L ++ map req_task rs) ->
  (forall r, r ∈ rs ->
     req_task r <> NULL /\ req_body r <> NULL /\ is_Some (heap s !! req_task r)) ->
  (length L + length rs <= 255)%nat -> (length L + length rs <= fuel)%nat ->
  exists s',
    add_all fuel scratch s rs = Done (s', true) /\ ring s' (L ++ map req_task rs).
Proof.
  induction rs as [|r rs IH]; intros s L R Hnd Hrs Hlen Hf.
  - cbn. rewrite app_nil_r. eauto.
  - cbn [map length add_all] in *.
    destruct (Hrs r ltac:(apply elem_of_cons; now left)) as (Hp & Hb & Ha).
    apply NoDup_app in Hnd as Hnd'. destruct Hnd' as (_ & Hdis & Hnd2).
    assert (HxL : req_task r ∉ L).
    { intros Hin. apply (Hdis _ Hin). apply elem_of_cons. now left. }
    destruct (AddTask_ring fuel scratch s L (req_task r) (req_body r)
                (req_interval r) (req_status r) R HxL Hp Ha Hb)
      as (x & Hx & Hret & Rx); [lia | lia |].
    rewrite Hx. cbn [mbind outcome_bind].
    destruct (IH (after x) (L ++ [req_task r]) Rx) as (s' & Hs' & R').
    + now rewrite <- app_assoc.
    + intros r' Hr'.
      destruct (Hrs r' ltac:(apply elem_of_cons; now right)) as (Hp' & Hb' & Ha').
      split_and!; try assumption.
      eapply AddTask_allocated; eauto.
    + rewrite length_app. cbn [length]. lia.
    + rewrite length_app. cbn [length]. lia.
    + rewrite Hs'. cbn [mbind outcome_bind fst snd]. rewrite Hret.
      eexists. split; [reflexivity|]. now rewrite <- app_assoc in R'.
Qed.

Lemma add_all_ring_witness :
  exists s',
    add_all 255 901 Examples.ready Examples.three_requests = Done (s', true) /\
    ring s' ([] ++ map req_task Examples.three_requests).
Proof.
  apply (add_all_ring 255 901 Examples.three_requests Examples.ready []
           (Init_ring 0 Examples.three_objects)).
  - cbn. repeat constructor; list_mem; lia.
  - intros r Hr. unfold Examples.three_requests in Hr.
    repeat (apply elem_of_cons in Hr as [-> | Hr]);
      [| | |now apply elem_of_nil in Hr];
      (split_and!; [unfold NULL; cbn; lia | unfold NULL; cbn; lia | cbn; eauto]).
  - cbn. lia.
  - cbn. lia.
Defined.

(** Removing the second of the three tasks of [Examples.three_state]
    hands the first task, the descriptor at 10, to [free]. *)
Lemma RemoveTask_frees_a_task_witness :
  exists r,
    minirtos_RemoveTask 255 904 Examples.three_state 20 = Done r /\
    freed r = [10] /\
    exists p t k,
      freed r = [p] /\
      heap Examples.three_state !! p = Some t /\ gptrTaskNext t = 20 /\
      follow k (heap Examples.three_state) (gptrTaskFirst Examples.three_state)
      = Done p /\
      (heap Examples.three_state !! 904 = None -> p <> 904).
Proof.
  assert (E : exists r,
            minirtos_RemoveTask 255 904 Examples.three_state 20 = Done r /\
            ret r = true /\ freed r = [10]).
  { vm_compute. eexists. split_and!; reflexivity. }
  destruct E as (r & E & Hr & Hfr). exists r.
  split; [exact E|]. split; [exact Hfr|].
  exact (RemoveTask_frees_a_task 255 904 Examples.three_state 20 r E Hr).
Defined.

(** ** The list that additions build *)

Lemma add_all_builds fuel scratch rs : forall s L,
  ring s L ->
  NoDup (L ++ map req_task rs) ->
  (forall r, r ∈ rs ->
     req_task r <> NULL /\ req_body r <> NULL /\ is_Some (heap s !! req_task r)) ->
  (length L + length rs <= 255)%nat -> (length L + length rs <= fuel)%nat ->
  exists s',
    add_all fuel scratch s rs = Done (s', true) /\ ring s' (L ++ map req_task rs) /\
    glbSysTicks s' = glbSysTicks s.
Proof.
  induction rs as [|r rs IH]; intros s L R Hnd Hrs Hlen Hf.
  - cbn. rewrite app_nil_r. eauto.
  - cbn [map length add_all] in *.
    destruct (Hrs r ltac:(apply elem_of_cons; now left)) as (Hp & Hb & Ha).
    apply NoDup_app in Hnd as Hnd'. destruct Hnd' as (_ & Hdis & Hnd2).
    assert (HxL : req_task r ∉ L).
    { intros Hin. apply (Hdis _ Hin). apply elem_of_cons. now left. }
    destruct (AddTask_ring fuel scratch s L (req_task r) (req_body r)
                (req_interval r) (req_status r) R HxL Hp Ha Hb)
      as (x & Hx & Hret & Rx); [lia | lia |].
    assert (Kt : glbSysTicks (after x) = glbSysTicks s).
    { destruct (AddTask_true _ _ _ _ _ _ _ _ Hx Hret)
        as (_ & _ & _ & _ & _ & s1 & t & Hl & Ht & ->).
      cbn [glbSysTicks set_count set_heap]. exact (proj1 (link_task_keeps _ _ _ _ Hl)). }
    rewrite Hx. cbn [mbind outcome_bind].
    destruct (IH (after x) (L ++ [req_task r]) Rx) as (s' & Hs' & R' & Kt').
    + now rewrite <- app_assoc.
    + intros r' Hr'.
      destruct (Hrs r' ltac:(apply elem_of_cons; now right)) as (Hp' & Hb' & Ha').
      split_and!; try assumption.
      eapply AddTask_allocated; eauto.
    + rewrite length_app. cbn [length]. lia.
    + rewrite length_app. cbn [length]. lia.
    + rewrite Hs'. cbn [mbind outcome_bind fst snd]. rewrite Hret.
      eexists. split; [reflexivity|]. rewrite <- app_assoc in R'.
      split; [exact R'|]. congruence.
Qed.

(** X16.  The list that additions build is circular.  After
    [minirtos_Init], a series of additions of distinct descriptors of the
    application, with a task body each and no more than 255 in all,
    succeeds throughout; the scheduler then counts as many tasks as
    there were calls, the first task is the one added first, [k] steps
    along the links from the first task lead to the task added by call
    [k + 1], and one more step from the task added last leads back to
    the first: as many steps as there are tasks go once round. *)
Theorem added_tasks_go_round fuel scratch ticks h rs :
  rs <> [] ->
  NoDup (map req_task rs) ->
  (forall r, r ∈ rs ->
     req_task r <> NULL /\ req_body r <> NULL /\ is_Some (h !! req_task r)) ->
  (length rs <= 255)%nat -> (length rs <= fuel)%nat ->
  exists s',
    add_all fuel scratch (minirtos_Init (boot ticks h)) rs = Done (s', true) /\
    glbNumberOfTasks s' = Z.of_nat (length rs) /\
    gptrTaskFirst s' = hd NULL (map req_task rs) /\
    (forall k, (k < length rs)%nat ->
       follow k (heap s') (gptrTaskFirst s') = Done (nth k (map req_task rs) NULL)) /\
    follow (length rs) (heap s') (gptrTaskFirst s') = Done (gptrTaskFirst s').
Proof.
  intros Hne Hnd Hrs Hlen Hf.
  destruct (add_all_builds fuel scratch rs (minirtos_Init (boot ticks h)) []
              (Init_ring ticks h) Hnd Hrs Hlen Hf) as (s' & E & R & _).
  exists s'. split; [exact E|]. cbn [app] in R.
  destruct rs as [|r rs]; [congruence|]. cbn [map hd] in *.
  destruct R as (Hi & Hn & _ & Hfirst & _ & _ & _ & Hch).
  cbn [length] in *. rewrite length_map in Hn.
  rewrite Hfirst. split_and!.
  - exact Hn.
  - reflexivity.
  - intros k Hk. rewrite (follow_inside _ _ _ _ k Hch) by (rewrite length_map; lia).
    f_equal. apply nth_indep. cbn [length]. rewrite length_map. lia.
  - rewrite <- (length_map req_task rs). now apply follow_chain.
Qed.

Lemma added_tasks_go_round_witness :
  exists s',
    add_all 255 901 (minirtos_Init (boot 0 Examples.three_objects))
      Examples.three_requests = Done (s', true) /\
    glbNumberOfTasks s' = Z.of_nat (length Examples.three_requests) /\
    gptrTaskFirst s' = hd NULL (map req_task Examples.three_requests) /\
    (forall k, (k < length Examples.three_requests)%nat ->
       follow k (heap s') (gptrTaskFirst s')
       = Done (nth k (map req_task Examples.three_requests) NULL)) /\
    follow (length Examples.three_requests) (heap s') (gptrTaskFirst s')
    = Done (gptrTaskFirst s').
Proof.
  apply (added_tasks_go_round 255 901 0 Examples.three_objects Examples.three_requests).
  - discriminate.
  - cbn. repeat constructor; list_mem; lia.
  - intros r Hr. unfold Examples.three_requests in Hr.
    repeat (apply elem_of_cons in Hr as [-> | Hr]);
      [| | |now apply elem_of_nil in Hr];
      (split_and!; [unfold NULL; cbn; lia | unfold NULL; cbn; lia | cbn; eauto]).
  - cbn. lia.
  - cbn. lia.
Defined.

(** ** Status calls on a circle *)

Lemma chain_same_links h h' l a z :
  (forall p, gptrTaskNext <$> h' !! p = gptrTaskNext <$> h !! p) ->
  chain h a l z -> chain h' a l z.
Proof. intros E. apply chain_ext. intros p _. apply E. Qed.

Lemma ring_same_links s s' L :
  glbInitialized s' = glbInitialized s ->
  glbNumberOfTasks s' = glbNumberOfTasks s ->
  gptrTaskFirst s' = gptrTaskFirst s ->
  gptrTaskSchedule s' = gptrTaskSchedule s ->
  (forall p, gptrTaskNext <$> heap s' !! p = gptrTaskNext <$> heap s !! p) ->
  ring s L -> ring s' L.
Proof.
  intros Ei En Ef Es El (Hi & Hn & Hlen & R). unfold ring.
  rewrite Ei, En, Ef, Es. split_and!; try assumption.
  destruct L as [|a l]; [assumption|].
  destruct R as (H1 & H2 & H3 & H4 & H5). split_and!; try assumption.
  now apply (chain_same_links (heap s)).
Qed.

Lemma insert_same_link (h : gmap Z Task_Descriptor_t) p t t' q :
  h !! p = Some t -> gptrTaskNext t' = gptrTaskNext t ->
  gptrTaskNext <$> <[p := t']> h !! q = gptrTaskNext <$> h !! q.
Proof.
  intros Ht E. destruct (decide (p = q)) as [->|Hne].
  - rewrite lookup_insert_eq, Ht. cbn. now rewrite E.
  - now rewrite lookup_insert_ne.
Qed.

Lemma same_list_ring s s' L : same_list s s' -> ring s L -> ring s' L.
Proof. intros (Ei & En & Ef & Es & El). now apply ring_same_links. Qed.

(** X17.  The three calls that set a status never touch the list.  In every
    initialised state, wherever the dispatch cursor is, for a descriptor
    the application owns, [minirtos_PauseTask], [minirtos_ResumeTask]
    and [minirtos_ModifyTask] (with a status from 0 to 5) return true;
    the count, the first task and the cursor are as before and every
    descriptor has the link it had, so a circle is the same circle; and
    no other descriptor changes.  Pausing changes the status alone;
    resuming also plans the task one period after the current tick,
    reduced to the 32 bits of the field. *)
Theorem status_calls_keep_list s p t :
  glbInitialized s <> 0 -> p <> NULL -> heap s !! p = Some t ->
  (exists s1,
     minirtos_PauseTask s p = Done (s1, true) /\ same_list s s1 /\
     (forall L, ring s L -> ring s1 L) /\
     heap s1 !! p = Some (with_status TASK_PAUSE t) /\
     forall q, q <> p -> heap s1 !! q = heap s !! q) /\
  (exists s2,
     minirtos_ResumeTask s p = Done (s2, true) /\ same_list s s2 /\
     (forall L, ring s L -> ring s2 L) /\
     heap s2 !! p
     = Some {| taskPointer := taskPointer t; taskInterval := taskInterval t;
               plannedTask := uint32 (glbSysTicks s + taskInterval t);
               taskStatus := TASK_SCHEDULED; gptrTaskNext := gptrTaskNext t |} /\
     forall q, q <> p -> heap s2 !! q = heap s !! q) /\
  (forall iv st, st <= TASK_ONE_SHOT_NOW ->
     exists s3,
       minirtos_ModifyTask s p iv st = Done (s3, true) /\ same_list s s3 /\
       (forall L, ring s L -> ring s3 L) /\
       forall q, q <> p -> heap s3 !! q = heap s !! q).
Proof.
  intros Hi Hp Ht.
  assert (K : forall t', gptrTaskNext t' = gptrTaskNext t ->
                same_list s (set_heap s (<[p := t']> (heap s)))).
  { intros t' E. unfold same_list. split_and!; try reflexivity.
    intros q. cbn [heap set_heap]. now apply (insert_same_link _ _ t). }
  split_and!.
  - eexists. split; [apply (PauseTask_Some s p t); assumption|].
    cbn [heap set_heap]. split_and!.
    + now apply K.
    + intros L. apply same_list_ring. now apply K.
    + apply lookup_insert_eq.
    + intros q Hq. now rewrite lookup_insert_ne.
  - eexists. split; [apply (ResumeTask_Some s p t); assumption|].
    cbn [heap set_heap]. split_and!.
    + now apply K.
    + intros L. apply same_list_ring. now apply K.
    + now rewrite lookup_insert_eq.
    + intros q Hq. now rewrite lookup_insert_ne.
  - intros iv st Hst. eexists.
    split; [apply (ModifyTask_accepted s p iv st t); assumption|].
    cbn [heap set_heap]. split_and!.
    + now apply K.
    + intros L. apply same_list_ring. now apply K.
    + intros q Hq. now rewrite lookup_insert_ne.
Qed.

(** On [Examples.three_due], where the cursor is on the second task:
    pausing the third task returns true, the cursor is still on the
    second task and the third task still links to the first. *)
Lemma status_calls_keep_list_witness :
  gptrTaskSchedule Examples.three_due = 20 /\
  gptrTaskFirst Examples.three_due = 10 /\
  exists s1,
    minirtos_PauseTask Examples.three_due 30 = Done (s1, true) /\
    same_list Examples.three_due s1 /\
    (forall L, ring Examples.three_due L -> ring s1 L) /\
    heap s1 !! 30 = Some (with_status TASK_PAUSE (mkTask 9 50 50 TASK_SCHEDULED 10)) /\
    forall q, q <> 30 -> heap s1 !! q = heap Examples.three_due !! q.
Proof.
  assert (Hi : glbInitialized Examples.three_due <> 0) by (cbn; lia).
  assert (Hp : 30 <> NULL) by (unfold NULL; lia).
  assert (L : heap Examples.three_due !! 30
              = Some (mkTask 9 50 50 TASK_SCHEDULED 10)) by reflexivity.
  split; [reflexivity|]. split; [reflexivity|].
  exact (proj1 (status_calls_keep_list Examples.three_due 30 _ Hi Hp L)).
Defined.

(** ** A removal that never returns *)

Lemma chain_closed h l : forall a z p,
  chain h a l z -> p ∈ a :: l ->
  exists t, h !! p = Some t /\ gptrTaskNext t ∈ z :: l.
Proof.
  induction l as [|b l IH]; intros a z p; cbn [chain].
  - intros H Hp. apply elem_of_cons in Hp as [-> | Hp];
      [|now apply elem_of_nil in Hp].
    apply fmap_Some in H as (t & Ht & ->). exists t. split; [assumption|].
    apply elem_of_cons. now left.
  - intros [H1 H2] Hp. apply elem_of_cons in Hp as [-> | Hp].
    + apply fmap_Some in H1 as (t & Ht & ->). exists t. split; [assumption|].
      apply elem_of_cons. right. apply elem_of_cons. now left.
    + destruct (IH b z p H2 Hp) as (t & Ht & Hn). exists t. split; [assumption|].
      apply elem_of_cons in Hn as [-> | Hn].
      * apply elem_of_cons. now left.
      * apply elem_of_cons. right. apply elem_of_cons. now right.
Qed.

Lemma walk_never h (nodes : list Z) stop :
  (forall p, p ∈ nodes -> exists t, h !! p = Some t /\ gptrTaskNext t ∈ nodes) ->
  stop ∉ nodes ->
  forall fuel p, p ∈ nodes -> walk fuel h p stop = Timeout.
Proof.
  intros Hcl Hstop. induction fuel as [|fuel IH]; intros p Hp; [reflexivity|].
  cbn [walk]. destruct (Hcl p Hp) as (t & Ht & Hn).
  rewrite (load_Some _ _ _ Ht). cbn [mbind outcome_bind].
  destruct (Z.eqb_spec (gptrTaskNext t) stop) as [E|E].
  - exfalso. apply Hstop. now rewrite <- E.
  - now apply IH.
Qed.

(** X18.  [minirtos_RemoveTask] looks for the node that links to the target and
    has no other way out of its loop.  On a circle, for a target that is
    not one of its tasks, the walk goes round for ever: whatever the
    number of steps allowed, the call has not returned. *)
Theorem RemoveTask_unlinked_never_returns fuel scratch s a l x :
  ring s (a :: l) -> x ∉ a :: l -> x <> NULL ->
  glbNumberOfTasks s <> MAX_TASKS_NUMBER ->
  minirtos_RemoveTask fuel scratch s x = Timeout.
Proof.
  intros (Hi & Hn & Hlen & Hfirst & Hsched & Hnd & Hnull & Hch) Hx Hx0 H255.
  unfold minirtos_RemoveTask.
  rewrite (proj2 (Z.eqb_neq _ _) Hi), (proj2 (Z.eqb_neq _ _) H255),
    (proj2 (Z.eqb_neq _ _) Hx0).
  cbn [orb]. rewrite Hfirst.
  rewrite (walk_never (heap s) (a :: l) x); [reflexivity| |assumption|].
  - intros p Hp. now apply (chain_closed _ _ _ _ _ Hch).
  - apply elem_of_cons. now left.
Qed.

Lemma RemoveTask_unlinked_never_returns_witness :
  minirtos_RemoveTask 1000 904 Examples.three_state 40 = Timeout.
Proof.
  apply (RemoveTask_unlinked_never_returns 1000 904 Examples.three_state 10 [20; 30] 40
           three_state_ring).
  - list_mem; lia.
  - unfold NULL. lia.
  - cbn. unfold MAX_TASKS_NUMBER. lia.
Defined.

(** ** What an addition stores *)

(** X19.  A call of [minirtos_AddTask] that returns true, with a requested
    status other than [TASK_RUN_NOW] and [TASK_ONE_SHOT_NOW], leaves in
    the descriptor the task body, the status requested when it is
    [TASK_PAUSE], [TASK_SCHEDULED] or [TASK_ONE_SHOT] and
    [TASK_SCHEDULED] for every other value, the period (100 when the
    requested one is above 3600000) and, as planned tick, the current
    tick plus that period, reduced to the 32 bits of the field; and the
    task count is one more. *)
Theorem AddTask_stored fuel scratch s p cb iv st r :
  is_uint32 iv ->
  minirtos_AddTask fuel scratch s p cb iv st = Done r -> ret r = true ->
  st <> TASK_RUN_NOW -> st <> TASK_ONE_SHOT_NOW ->
  glbNumberOfTasks (after r) = uint8 (glbNumberOfTasks s + 1) /\
  exists t, heap (after r) !! p = Some t /\
    taskPointer t = cb /\
    taskStatus t
    = (if (st =? TASK_PAUSE) || (st =? TASK_SCHEDULED) || (st =? TASK_ONE_SHOT)
       then st else TASK_SCHEDULED) /\
    taskInterval t
    = (if iv >? MAX_TASK_INTERVAL then DEFAULT_TASK_INTERVAL else iv) /\
    plannedTask t
    = uint32 (glbSysTicks s
              + (if iv >? MAX_TASK_INTERVAL then DEFAULT_TASK_INTERVAL else iv)).
Proof.
  intros Hiv H Hr H3 H5.
  destruct (AddTask_true _ _ _ _ _ _ _ _ H Hr)
    as (_ & _ & _ & _ & _ & s1 & t & Hl & Ht & Ha).
  rewrite Ha. cbn [heap glbNumberOfTasks set_count set_heap].
  split; [reflexivity|]. eexists. split; [apply lookup_insert_eq|].
  rewrite <- checked_interval_uint32 by assumption.
  assert (E : (checked_status st =? TASK_RUN_NOW)
              || (checked_status st =? TASK_ONE_SHOT_NOW) = false).
  { unfold checked_status.
    repeat match goal with
           | |- context [if ?x =? ?y then _ else _] =>
               destruct (Z.eqb_spec x y)
           end; subst; try reflexivity; contradiction. }
  unfold filled. rewrite E. cbn [taskPointer taskStatus taskInterval plannedTask].
  split_and!; try reflexivity.
  - unfold checked_status.
    destruct (Z.eqb_spec st TASK_PAUSE); [reflexivity|].
    destruct (Z.eqb_spec st TASK_SCHEDULED); [reflexivity|].
    destruct (Z.eqb_spec st TASK_ONE_SHOT); [reflexivity|].
    destruct (Z.eqb_spec st TASK_RUN_NOW); [contradiction|].
    destruct (Z.eqb_spec st TASK_ONE_SHOT_NOW); [contradiction|]. reflexivity.
  - apply uint32_uintmax.
Qed.

Lemma AddTask_stored_witness :
  glbNumberOfTasks Examples.one_state = uint8 (glbNumberOfTasks Examples.ready + 1) /\
  exists t, heap Examples.one_state !! 10 = Some t /\
    taskPointer t = 7 /\ taskStatus t = TASK_SCHEDULED /\ taskInterval t = 50 /\
    plannedTask t = uint32 (glbSysTicks Examples.ready + 50).
Proof.
  assert (H : is_uint32 50) by (unfold is_uint32; lia).
  assert (E : minirtos_AddTask 255 901 Examples.ready 10 7 50 TASK_SCHEDULED
              = Done (mkResult Examples.one_state true []))
    by (vm_compute; reflexivity).
  apply (AddTask_stored 255 901 Examples.ready 10 7 50 TASK_SCHEDULED
           (mkResult Examples.one_state true []) H E eq_refl).
  - unfold TASK_SCHEDULED, TASK_RUN_NOW. lia.
  - unfold TASK_SCHEDULED, TASK_ONE_SHOT_NOW. lia.
Defined.

(** ** The test of the loop on a 32-bit planned tick *)

(** X20.  While the tick counter is below [2^32] the test is the plain
    comparison: the task is judged due exactly when the counter has
    reached its planned tick. *)
Theorem due_within_32_bits planned ticks :
  is_uint32 planned -> is_uint32 ticks ->
  due planned ticks = true <-> planned <= ticks.
Proof.
  intros Hp Ht. rewrite due_iff; unfold is_uint32, is_uintmax in *; lia.
Qed.

Lemma due_within_32_bits_witness : due 50 50 = true <-> 50 <= 50.
Proof.
  assert (H : is_uint32 50) by (unfold is_uint32; lia).
  exact (due_within_32_bits 50 50 H H).
Defined.

Lemma due_beyond_32_bits_witness : due 4294967295 (2 ^ 32) = true.
Proof.
  apply due_beyond_32_bits; [unfold is_uint32|]; lia.
Defined.

(** X22.  A planned tick that falls beyond the 32-bit range is stored reduced,
    so it lies in the past: a task planned, before the counter reaches
    [2^32], for a tick at or after [2^32] is judged due at once. *)
Theorem planned_beyond_32_bits_is_due ticks iv :
  is_uint32 ticks -> is_uint32 iv -> 2 ^ 32 <= ticks + iv ->
  due (uint32 (uintmax (ticks + iv))) ticks = true.
Proof.
  unfold is_uint32. intros Ht Hi Hsum.
  rewrite uint32_uintmax.
  assert (E : uint32 (ticks + iv) = ticks + iv - 2 ^ 32).
  { unfold uint32. symmetry. apply Z.mod_unique with (q := 1); lia. }
  rewrite E. apply due_iff; unfold is_uint32, is_uintmax; lia.
Qed.

Lemma planned_beyond_32_bits_is_due_witness :
  due (uint32 (uintmax (4294967290 + 100))) 4294967290 = true.
Proof.
  apply planned_beyond_32_bits_is_due; unfold is_uint32; lia.
Defined.

(** ** What the loop calls *)

(** X23.  The loop calls a task only when it has to: in one iteration it calls
    nothing, or the body of the task under the cursor, and the latter
    only when tasks are counted, the status of that task is not
    [TASK_PAUSE] and the test on its planned tick judges it due.  This
    holds whatever the task bodies do. *)
Theorem iteration_calls_only_due body s s' calls :
  Scheduler_iteration body s = Done (s', calls) ->
  calls = [] \/
  exists t,
    heap s !! gptrTaskSchedule s = Some t /\ calls = [taskPointer t] /\
    taskPointer t <> NULL /\ glbNumberOfTasks s <> 0 /\
    TASK_PAUSE < taskStatus t /\ due (plannedTask t) (glbSysTicks s) = true.
Proof.
  unfold Scheduler_iteration.
  destruct (gptrTaskSchedule s =? NULL) eqn:Ec; cbn [negb andb];
    [intros [= <- <-]; now left|].
  destruct (Z.eqb_spec (glbNumberOfTasks s) 0) as [En|En]; cbn [negb];
    [intros [= <- <-]; now left|].
  intros H. apply bind_Done in H as (t & Ht & H). apply load_Done in Ht.
  apply bind_Done in H as (r & Hr & H).
  assert (Hcalls : calls = r.2).
  { destruct (negb (gptrTaskSchedule r.1 =? NULL)).
    - apply bind_Done in H as (t' & _ & H). injection H as _ Hc. now symmetry.
    - injection H as Hr'. now rewrite Hr'. }
  clear H. subst calls.
  destruct (taskStatus t >? TASK_PAUSE) eqn:Es; [|injection Hr as <-; now left].
  apply Z.gtb_gt in Es. unfold dispatch in Hr.
  destruct (due (plannedTask t) (glbSysTicks s)) eqn:Ed;
    [|injection Hr as <-; now left].
  right. exists t.
  destruct (negb (Z.land (taskStatus t) TASK_ONE_SHOT =? 0)).
  - destruct (Z.eqb_spec (taskPointer t) NULL) as [Ef|Ef]; [discriminate|].
    apply bind_Done in Hr as (h & _ & Hr). injection Hr as <-.
    cbn [snd]. split_and!; auto; lia.
  - apply bind_Done in Hr as (h & _ & Hr).
    destruct (Z.eqb_spec (taskPointer t) NULL) as [Ef|Ef]; [discriminate|].
    injection Hr as <-. cbn [snd]. split_and!; auto; lia.
Qed.

Lemma iteration_calls_only_due_witness :
  [7] = [] \/
  exists t,
    heap (set_ticks Examples.three_state 50)
      !! gptrTaskSchedule (set_ticks Examples.three_state 50) = Some t /\
    [7] = [taskPointer t] /\
    taskPointer t <> NULL /\ glbNumberOfTasks (set_ticks Examples.three_state 50) <> 0 /\
    TASK_PAUSE < taskStatus t /\
    due (plannedTask t) (glbSysTicks (set_ticks Examples.three_state 50)) = true.
Proof.
  eapply (iteration_calls_only_due Examples.idle (set_ticks Examples.three_state 50)).
  vm_compute. reflexivity.
Defined.

Lemma idle_step body s :
  gptrTaskSchedule s = NULL \/ glbNumberOfTasks s = 0 ->
  Scheduler_iteration body s = Done (s, []).
Proof.
  intros H. unfold Scheduler_iteration. destruct H as [-> | ->]; [reflexivity|].
  cbn. now rewrite andb_false_r.
Qed.

(** X24.  With no task to run -- the cursor is null, as after [minirtos_Init],
    or the task count is zero, as after the removal of the last task --
    the loop goes round without calling or changing anything. *)
Theorem idle_without_tasks body n s :
  gptrTaskSchedule s = NULL \/ glbNumberOfTasks s = 0 ->
  Scheduler_iterations body n s = Done (s, []).
Proof.
  intros H. induction n as [|n IH]; [reflexivity|].
  cbn [Scheduler_iterations].
  rewrite (idle_step body s H). cbn [mbind outcome_bind fst snd]. rewrite IH. reflexivity.
Qed.

Lemma idle_without_tasks_witness :
  Scheduler_iterations Examples.idle 4 Examples.ready = Done (Examples.ready, []).
Proof.
  assert (H : gptrTaskSchedule Examples.ready = NULL
              \/ glbNumberOfTasks Examples.ready = 0) by (left; reflexivity).
  exact (idle_without_tasks Examples.idle 4 Examples.ready H).
Defined.

Lemma paused_silent body n : forall s,
  (forall p t, heap s !! p = Some t ->
     taskStatus t = TASK_PAUSE /\
     (gptrTaskNext t = NULL \/ is_Some (heap s !! gptrTaskNext t))) ->
  gptrTaskSchedule s = NULL \/ is_Some (heap s !! gptrTaskSchedule s) ->
  exists c, Scheduler_iterations body n s = Done (set_schedule s c, []).
Proof.
  induction n as [|n IH]; intros s Hall Hcur.
  { exists (gptrTaskSchedule s). now destruct s. }
  cbn [Scheduler_iterations].
  destruct (Z.eq_dec (gptrTaskSchedule s) NULL) as [Ec|Ec].
  { rewrite (idle_step body s (or_introl Ec)). cbn [mbind outcome_bind fst snd].
    destruct (IH s Hall Hcur) as (c & ->). cbn. eauto. }
  destruct (Z.eq_dec (glbNumberOfTasks s) 0) as [En|En].
  { rewrite (idle_step body s (or_intror En)). cbn [mbind outcome_bind fst snd].
    destruct (IH s Hall Hcur) as (c & ->). cbn. eauto. }
  destruct Hcur as [Hc | [t Ht]]; [contradiction|].
  destruct (Hall _ _ Ht) as (Hs & Hnext).
  rewrite (iteration_paused body s t Ec En Ht Hs).
  cbn [mbind outcome_bind fst snd].
  destruct (IH (set_schedule s (gptrTaskNext t)) Hall Hnext) as (c & ->).
  cbn. eauto.
Qed.

(** X25.  A paused task is never called.  When every descriptor is in status
    [TASK_PAUSE] and the links stay among the descriptors, no number of
    iterations calls anything or changes a descriptor, whatever the
    planned ticks, the tick counter and the task bodies. *)
Theorem paused_never_called body n s :
  (forall p t, heap s !! p = Some t ->
     taskStatus t = TASK_PAUSE /\
     (gptrTaskNext t = NULL \/ is_Some (heap s !! gptrTaskNext t))) ->
  gptrTaskSchedule s = NULL \/ is_Some (heap s !! gptrTaskSchedule s) ->
  exists s', Scheduler_iterations body n s = Done (s', []) /\ heap s' = heap s.
Proof.
  intros Hall Hcur. destruct (paused_silent body n s Hall Hcur) as (c & ->).
  eauto.
Qed.

Lemma paused_never_called_witness :
  exists s',
    Scheduler_iterations Examples.idle 5 Examples.paused_state = Done (s', []) /\
    heap s' = heap Examples.paused_state.
Proof.
  apply (paused_never_called Examples.idle 5 Examples.paused_state).
  - intros p t H. cbn [heap Examples.paused_state] in H.
    unfold Examples.paused_state in H. cbn [heap] in H.
    apply lookup_singleton_Some in H as [<- <-].
    split; [reflexivity|]. right. cbn. rewrite lookup_singleton_eq. eauto.
  - right. cbn. rewrite lookup_singleton_eq. eauto.
Defined.

(** ** Round robin *)

(** One iteration with task bodies that leave the scheduler alone: the
    task under the cursor is called when it is not paused and is due,
    and the cursor moves to the next task whether or not the task is
    called; the count, the first task and the tick counter stay; no
    descriptor but the one under the cursor changes, and that one keeps
    its body, its period and its link. *)
Lemma iteration_step body s t :
  quiet body ->
  gptrTaskSchedule s <> NULL -> glbNumberOfTasks s <> 0 ->
  heap s !! gptrTaskSchedule s = Some t -> taskPointer t <> NULL ->
  exists s' t',
    Scheduler_iteration body s = Done (s', call_of s (gptrTaskSchedule s)) /\
    gptrTaskSchedule s' = gptrTaskNext t /\
    glbInitialized s' = glbInitialized s /\
    glbNumberOfTasks s' = glbNumberOfTasks s /\
    gptrTaskFirst s' = gptrTaskFirst s /\
    glbSysTicks s' = glbSysTicks s /\
    heap s' = <[gptrTaskSchedule s := t']> (heap s) /\
    taskPointer t' = taskPointer t /\ taskInterval t' = taskInterval t /\
    gptrTaskNext t' = gptrTaskNext t.
Proof.
  intros Q Hc Hn Ht Hf. unfold Scheduler_iteration, call_of.
  rewrite (proj2 (Z.eqb_neq _ _) Hc), (proj2 (Z.eqb_neq _ _) Hn). cbn [negb andb].
  rewrite (load_Some _ _ _ Ht), Ht. cbn [mbind outcome_bind].
  destruct (taskStatus t >? TASK_PAUSE).
  2:{ cbn [mbind outcome_bind fst snd andb].
      rewrite (proj2 (Z.eqb_neq _ _) Hc). cbn [negb].
      rewrite (load_Some _ _ _ Ht). cbn [mbind outcome_bind].
      exists (set_schedule s (gptrTaskNext t)), t.
      split_and!; try reflexivity.
      cbn [heap set_schedule]. symmetry. now apply insert_id. }
  unfold dispatch. cbn [andb]. destruct (due (plannedTask t) (glbSysTicks s)).
  2:{ cbn [mbind outcome_bind fst snd].
      rewrite (proj2 (Z.eqb_neq _ _) Hc). cbn [negb].
      rewrite (load_Some _ _ _ Ht). cbn [mbind outcome_bind].
      exists (set_schedule s (gptrTaskNext t)), t.
      split_and!; try reflexivity.
      cbn [heap set_schedule]. symmetry. now apply insert_id. }
  rewrite (proj2 (Z.eqb_neq _ _) Hf).
  destruct (negb (Z.land (taskStatus t) TASK_ONE_SHOT =? 0)).
  - rewrite (Q (taskPointer t) s). rewrite (store_Some _ _ _ _ Ht).
    cbn [mbind outcome_bind fst snd gptrTaskSchedule set_heap heap].
    rewrite (proj2 (Z.eqb_neq _ _) Hc). cbn [negb].
    rewrite (load_Some _ _ _ (lookup_insert_eq _ _ _)). cbn [mbind outcome_bind].
    do 2 eexists. split; [reflexivity|].
    split_and!; reflexivity.
  - rewrite (store_Some _ _ _ _ Ht). cbn [mbind outcome_bind].
    rewrite (Q (taskPointer t) _).
    cbn [mbind outcome_bind fst snd gptrTaskSchedule set_heap heap].
    rewrite (proj2 (Z.eqb_neq _ _) Hc). cbn [negb].
    rewrite (load_Some _ _ _ (lookup_insert_eq _ _ _)). cbn [mbind outcome_bind].
    do 2 eexists. split; [reflexivity|].
    split_and!; reflexivity.
Qed.

Lemma flat_map_same {A B} (f g : A -> list B) l :
  (forall x, In x l -> f x = g x) -> flat_map f l = flat_map g l.
Proof.
  induction l as [|x l IH]; intros E; [reflexivity|]. cbn [flat_map].
  rewrite (E x (or_introl eq_refl)), IH; [reflexivity|].
  intros y Hy. apply E. now right.
Qed.

(** A descriptor that an iteration does not change makes the same call
    after it as before. *)
Lemma call_of_same s s' p :
  glbSysTicks s' = glbSysTicks s -> heap s' !! p = heap s !! p ->
  call_of s' p = call_of s p.
Proof. unfold call_of. now intros -> ->. Qed.

(** The links along the first nodes of a chain. *)
Lemma chain_prefix h l : forall a z (j : nat),
  chain h a l z -> (j <= length l)%nat -> chain h a (firstn j l) (nth j l z).
Proof.
  induction l as [|b l IH]; intros a z j; cbn [chain length].
  - intros H Hj. assert (j = O) by lia. subst. exact H.
  - intros [H1 H2] Hj. destruct j as [|j]; cbn [firstn nth chain]; [exact H1|].
    split; [exact H1|]. apply IH; [exact H2 | lia].
Qed.

(** The loop along a chain: with the cursor on [c] and the links leading
    from [c] through the distinct tasks [l] and then to [z], one
    iteration for each of these tasks makes the call of each, in order,
    as its descriptor says at the start, and leaves the cursor on
    [z]. *)
Lemma iterations_along body l : forall s c z,
  quiet body -> glbNumberOfTasks s <> 0 -> gptrTaskSchedule s = c ->
  NoDup (c :: l) -> (NULL ∉ c :: l) -> chain (heap s) c l z ->
  (forall p t, p ∈ c :: l -> heap s !! p = Some t -> taskPointer t <> NULL) ->
  exists s',
    Scheduler_iterations body (S (length l)) s
    = Done (s', flat_map (call_of s) (c :: l)) /\
    gptrTaskSchedule s' = z /\
    glbInitialized s' = glbInitialized s /\
    glbNumberOfTasks s' = glbNumberOfTasks s /\
    gptrTaskFirst s' = gptrTaskFirst s /\
    glbSysTicks s' = glbSysTicks s /\
    (forall p,
      (fun t => (taskPointer t, taskInterval t, gptrTaskNext t)) <$> heap s' !! p
      = (fun t => (taskPointer t, taskInterval t, gptrTaskNext t)) <$> heap s !! p) /\
    (forall p, p ∉ c :: l -> heap s' !! p = heap s !! p).
Proof.
  induction l as [|b l IH]; intros s c z Q Hn Hcur Hnd H0 Hch Hf.
  - cbn [chain] in Hch. apply fmap_Some in Hch as (t & Ht & Hz).
    assert (Hc : gptrTaskSchedule s <> NULL).
    { rewrite Hcur. intros E. apply H0. rewrite E. apply elem_of_cons. now left. }
    rewrite <- Hcur in Ht.
    assert (Hb : taskPointer t <> NULL).
    { apply (Hf c); [apply elem_of_cons; now left | now rewrite <- Hcur]. }
    destruct (iteration_step body s t Q Hc Hn Ht Hb)
      as (s1 & t' & E1 & Kc & Ki & Kn & Kf & Kt & Kh & Kp & Kiv & Knx).
    exists s1. cbn [Scheduler_iterations length flat_map].
    rewrite E1. cbn [mbind outcome_bind fst snd]. rewrite Hcur.
    split_and!; try assumption; try congruence.
    + intros p. rewrite Kh. destruct (decide (gptrTaskSchedule s = p)) as [<-|Hne].
      * rewrite lookup_insert_eq, Ht. cbn. now rewrite Kp, Kiv, Knx.
      * now rewrite lookup_insert_ne.
    + intros p Hp. rewrite Kh, lookup_insert_ne; [reflexivity|].
      rewrite Hcur. intros <-. apply Hp. apply elem_of_cons. now left.
  - cbn [chain] in Hch. destruct Hch as [Hcb Hch].
    apply fmap_Some in Hcb as (t & Ht & Hz).
    assert (Hc : gptrTaskSchedule s <> NULL).
    { rewrite Hcur. intros E. apply H0. rewrite E. apply elem_of_cons. now left. }
    rewrite <- Hcur in Ht.
    assert (Hb : taskPointer t <> NULL).
    { apply (Hf c); [apply elem_of_cons; now left | now rewrite <- Hcur]. }
    destruct (iteration_step body s t Q Hc Hn Ht Hb)
      as (s1 & t' & E1 & Kc & Ki & Kn & Kf & Kt & Kh & Kp & Kiv & Knx).
    apply NoDup_cons in Hnd as [Hcl Hnd].
    assert (Hother : forall p, p ∈ b :: l -> heap s1 !! p = heap s !! p).
    { intros p Hp. rewrite Kh, lookup_insert_ne; [reflexivity|].
      rewrite Hcur. now intros <-. }
    assert (Hkeep : forall p,
              (fun t => (taskPointer t, taskInterval t, gptrTaskNext t)) <$> heap s1 !! p
              = (fun t => (taskPointer t, taskInterval t, gptrTaskNext t)) <$> heap s !! p).
    { intros p. rewrite Kh. destruct (decide (gptrTaskSchedule s = p)) as [<-|Hne].
      - rewrite lookup_insert_eq, Ht. cbn. now rewrite Kp, Kiv, Knx.
      - now rewrite lookup_insert_ne. }
    destruct (IH s1 b z Q) as (s' & E' & Kc' & Ki' & Kn' & Kf' & Kt' & Kh' & Ko').
    + congruence.
    + congruence.
    + assumption.
    + intros Hin. apply H0. apply elem_of_cons. now right.
    + eapply chain_ext; [|exact Hch]. intros p Hp. now rewrite Hother.
    + intros p tp Hp Htp. rewrite (Hother p Hp) in Htp.
      apply (Hf p); [apply elem_of_cons; now right | assumption].
    + exists s'.
      change (Scheduler_iterations body (S (length (b :: l))) s)
        with (r ← Scheduler_iteration body s;
              r' ← Scheduler_iterations body (S (length l)) r.1;
              Done (r'.1, r.2 ++ r'.2)).
      rewrite E1. cbn [mbind outcome_bind fst snd]. rewrite E'.
      cbn [mbind outcome_bind fst snd].
      split_and!; try congruence.
      * rewrite Hcur. do 2 f_equal. change (flat_map (call_of s) (c :: b :: l))
          with (call_of s c ++ flat_map (call_of s) (b :: l)).
        f_equal. apply flat_map_same. intros p Hp.
        apply call_of_same; [assumption|]. apply Hother.
        now apply list_elem_of_In.
      * intros p Hp. rewrite Ko'.
        -- rewrite Kh, lookup_insert_ne; [reflexivity|].
           rewrite Hcur. intros <-. apply Hp. apply elem_of_cons. now left.
        -- intros Hin. apply Hp. apply elem_of_cons. now right.
Qed.

(** X26.  Round robin.  With the cursor on a task of a circle -- the links
    lead from the task [c] under the cursor through the distinct tasks
    [l] and back to [c] -- where every task has a body and the bodies
    leave the scheduler alone, each iteration moves the cursor one task
    on: after [k] iterations, for every [k] up to the number of tasks,
    the cursor is on task number [k] of the circle counted from [c], and
    is back on [c] when [k] is the number of tasks.  The [k] tasks
    passed were each looked at once, in the order of the list, and each
    was called if and only if it was not paused and its planned tick was
    judged due.  The count, the first task, the tick counter and every
    link stay, no descriptor of a task not yet passed changes, and after
    the whole round a circle with the cursor on the first task is that
    circle again. *)
Theorem round_robin body s c l :
  quiet body -> glbNumberOfTasks s <> 0 -> gptrTaskSchedule s = c ->
  NoDup (c :: l) -> (NULL ∉ c :: l) -> chain (heap s) c l c ->
  (forall p t, p ∈ c :: l -> heap s !! p = Some t -> taskPointer t <> NULL) ->
  forall k, (k <= length (c :: l))%nat ->
  exists s',
    Scheduler_iterations body k s
    = Done (s', flat_map (call_of s) (firstn k (c :: l))) /\
    gptrTaskSchedule s' = nth k (c :: l) c /\
    glbNumberOfTasks s' = glbNumberOfTasks s /\
    gptrTaskFirst s' = gptrTaskFirst s /\
    glbSysTicks s' = glbSysTicks s /\
    (forall p, gptrTaskNext <$> heap s' !! p = gptrTaskNext <$> heap s !! p) /\
    (forall p, p ∉ firstn k (c :: l) -> heap s' !! p = heap s !! p) /\
    (k = length (c :: l) -> forall L, ring s L -> ring s' L).
Proof.
  intros Q Hn Hcur Hnd H0 Hch Hf k Hk.
  destruct k as [|j].
  { exists s. cbn [firstn flat_map nth Scheduler_iterations].
    split_and!; try reflexivity; try assumption. discriminate. }
  cbn [length] in Hk. assert (Hj : (j <= length l)%nat) by lia.
  pose proof (chain_prefix _ _ _ _ j Hch Hj) as Hpre.
  assert (Hsub : forall p, p ∈ c :: firstn j l -> p ∈ c :: l).
  { intros p Hp. apply elem_of_cons in Hp as [-> | Hp]; apply elem_of_cons;
      [now left | right].
    apply list_elem_of_In. apply list_elem_of_In in Hp.
    rewrite <- (firstn_skipn j l). apply in_or_app. now left. }
  destruct (iterations_along body (firstn j l) s c (nth j l c) Q Hn Hcur)
    as (s' & E & Kc & Ki & Kn & Kf & Kt & Kh & Ko).
  - apply NoDup_cons in Hnd as [Hcl Hnd]. apply NoDup_cons. split.
    + intros Hin. apply Hcl.
      apply list_elem_of_In. apply list_elem_of_In in Hin.
      rewrite <- (firstn_skipn j l). apply in_or_app. now left.
    + rewrite <- (firstn_skipn j l) in Hnd. now apply NoDup_app in Hnd as (? & _ & _).
  - intros Hin. apply H0. now apply Hsub.
  - exact Hpre.
  - intros p t Hp. apply Hf. now apply Hsub.
  - rewrite length_firstn, Nat.min_l in E by assumption.
    exists s'. cbn [firstn nth].
    assert (Hlinks : forall p,
              gptrTaskNext <$> heap s' !! p = gptrTaskNext <$> heap s !! p).
    { intros p. specialize (Kh p).
      destruct (heap s' !! p), (heap s !! p); cbn in *; congruence. }
    split_and!; try assumption.
    intros Hlen L R. injection Hlen as Hlen.
    eapply ring_same_links; [..|exact R]; try assumption.
    rewrite Kc, Hcur. apply nth_overflow. lia.
Qed.

(** On [Examples.three_due], where the cursor is on the second of three
    due tasks: two iterations call the bodies 8 and 9, of the second and
    the third task, and leave the cursor on the first task. *)
Lemma round_robin_witness :
  exists s',
    Scheduler_iterations Examples.idle 2 Examples.three_due
    = Done (s', flat_map (call_of Examples.three_due) (firstn 2 [20; 30; 10])) /\
    flat_map (call_of Examples.three_due) (firstn 2 [20; 30; 10]) = [8; 9] /\
    gptrTaskSchedule s' = 10.
Proof.
  destruct (round_robin Examples.idle Examples.three_due 20 [30; 10]) with (k := 2%nat)
    as (s' & E & Kc & _).
  - intros f s. reflexivity.
  - cbn. lia.
  - reflexivity.
  - repeat constructor; list_mem; lia.
  - unfold NULL. list_mem; lia.
  - cbn [chain]. split_and!; reflexivity.
  - intros p t Hp Ht.
    repeat (apply elem_of_cons in Hp as [-> | Hp]);
      [| | |now apply elem_of_nil in Hp];
      vm_compute in Ht; injection Ht as <-; unfold NULL; cbn; lia.
  - cbn. lia.
  - exists s'. split_and!; [exact E | reflexivity | exact Kc].
Defined.

(** ** One shot, and the period *)

(** X27.  A one-shot task fires once.  A single task that links to itself, due
    and in a status that has the bit the loop tests ([TASK_ONE_SHOT] in
    particular), with a body that leaves the scheduler alone: the next
    iteration calls it and leaves it paused, and after that no number of
    iterations calls it again, whatever the tick counter becomes. *)
Theorem one_shot_fires_once body s t :
  quiet body ->
  gptrTaskSchedule s <> NULL -> glbNumberOfTasks s <> 0 ->
  heap s = {[gptrTaskSchedule s := t]} -> gptrTaskNext t = gptrTaskSchedule s ->
  taskPointer t <> NULL -> TASK_PAUSE < taskStatus t ->
  Z.land (taskStatus t) TASK_ONE_SHOT <> 0 ->
  due (plannedTask t) (glbSysTicks s) = true ->
  exists s1,
    Scheduler_iteration body s = Done (s1, [taskPointer t]) /\
    heap s1 = {[gptrTaskSchedule s := with_status TASK_PAUSE t]} /\
    forall ticks n, exists s2,
      Scheduler_iterations body n (set_ticks s1 ticks) = Done (s2, []).
Proof.
  intros Q Hc Hn Hh Hnx Hf Hst Hbit Hdue.
  assert (Ht : heap s !! gptrTaskSchedule s = Some t)
    by (rewrite Hh; apply lookup_singleton_eq).
  assert (E : Scheduler_iteration body s
              = Done (set_schedule
                        (set_heap s (<[gptrTaskSchedule s := with_status TASK_PAUSE t]>
                                       (heap s)))
                        (gptrTaskSchedule s), [taskPointer t])).
  { unfold Scheduler_iteration.
    rewrite (proj2 (Z.eqb_neq _ _) Hc), (proj2 (Z.eqb_neq _ _) Hn). cbn [negb andb].
    rewrite (load_Some _ _ _ Ht). cbn [mbind outcome_bind].
    rewrite (proj2 (Z.gtb_gt _ _)) by lia.
    assert (Ht' : heap (body (taskPointer t) s)
                    !! gptrTaskSchedule (body (taskPointer t) s) = Some t)
      by now rewrite Q.
    rewrite (dispatch_pauses body s t t Hdue Hbit Hf Ht'). rewrite Q.
    cbn [mbind outcome_bind fst snd gptrTaskSchedule set_heap heap].
    rewrite (proj2 (Z.eqb_neq _ _) Hc). cbn [negb].
    rewrite (load_Some _ _ _ (lookup_insert_eq _ _ _)). cbn [mbind outcome_bind].
    cbn [gptrTaskNext with_status]. now rewrite Hnx. }
  eexists. split; [exact E|].
  cbn [heap set_schedule set_heap]. rewrite Hh, insert_singleton_eq.
  split; [reflexivity|].
  intros ticks n.
  destruct (paused_silent body n
              (set_ticks
                 (set_schedule
                    (set_heap s {[gptrTaskSchedule s := with_status TASK_PAUSE t]})
                    (gptrTaskSchedule s)) ticks)) as (c & Ec).
  - cbn [heap set_ticks set_schedule set_heap]. intros p t' Hp.
    apply lookup_singleton_Some in Hp as [<- <-].
    split; [reflexivity|]. right. cbn [gptrTaskNext with_status].
    rewrite Hnx, lookup_singleton_eq. eauto.
  - right. cbn [heap gptrTaskSchedule set_ticks set_schedule set_heap].
    rewrite lookup_singleton_eq. eauto.
  - eauto.
Qed.

Lemma one_shot_fires_once_witness :
  exists s1,
    Scheduler_iteration Examples.idle Examples.one_shot_state = Done (s1, [7]) /\
    heap s1
    = {[10 := with_status TASK_PAUSE (mkTask 7 50 50 TASK_ONE_SHOT 10)]} /\
    forall ticks n, exists s2,
      Scheduler_iterations Examples.idle n (set_ticks s1 ticks) = Done (s2, []).
Proof.
  apply (one_shot_fires_once Examples.idle Examples.one_shot_state
           (mkTask 7 50 50 TASK_ONE_SHOT 10)).
  - intros f s. reflexivity.
  - cbn. unfold NULL. lia.
  - cbn. lia.
  - reflexivity.
  - reflexivity.
  - cbn. unfold NULL. lia.
  - cbn. unfold TASK_PAUSE, TASK_ONE_SHOT. lia.
  - vm_compute. discriminate.
  - vm_compute. reflexivity.
Defined.

(** X28.  The period is respected while the ticks stay within 32 bits: a task
    planned one period after the tick [now] is judged not due at every
    tick from [now] up to the planned one, and due at the planned tick
    and after it. *)
Theorem period_respected now iv ticks :
  0 <= now -> 0 <= iv -> now + iv < 2 ^ 32 -> now <= ticks < 2 ^ 32 ->
  due (uint32 (uintmax (now + iv))) ticks = true <-> now + iv <= ticks.
Proof.
  intros Hnow Hiv Hsum Ht.
  rewrite uint32_uintmax, uint32_small by lia.
  rewrite due_iff; unfold is_uint32, is_uintmax; lia.
Qed.

Lemma period_respected_witness :
  due (uint32 (uintmax (1000 + 50))) 1049 = true <-> 1000 + 50 <= 1049.
Proof. apply period_respected; lia. Defined.

End SchedFacts.
